(** * A verified model of the js-calculator expression evaluator

    The development embeds the [Calculator] class of [src/main.js]:
    [compute], [computeMD], [computeAS], [solve], [evaluateExpression] and
    [__findInnermostBrackets], together with the parts of the JavaScript
    runtime these methods rely on (IEEE-754 binary64 arithmetic,
    [parseFloat], the Number-to-String conversion, string slicing).

    JavaScript numbers are the binary64 floats of [SpecFloat]; strings are
    sequences of code units, here [string] (code units below 256). *)

From Stdlib Require Import ZArith List Bool Lia String Ascii.
From Stdlib Require Import Floats.SpecFloat.
From Stdlib Require Import Numbers.DecimalString.
Import ListNotations.

Open Scope string_scope.

(* ================================================================= *)
(** ** JavaScript numbers *)

Definition number : Type := spec_float.

Module Number.

Definition prec : Z := 53.
Definition emax : Z := 1024.

Definition NaN : number := S754_nan.

Definition add : number -> number -> number := SFadd prec emax.
Definition sub : number -> number -> number := SFsub prec emax.
Definition mul : number -> number -> number := SFmul prec emax.
Definition div : number -> number -> number := SFdiv prec emax.

(** [x === 0]: true for both zeros, false for everything else. *)
Definition is_zero (x : number) : bool :=
  match x with
  | S754_zero _ => true
  | _ => false
  end.

(** The number of an integer literal. *)
Definition of_Z (z : Z) : number := binary_normalize prec emax z 0 false.

(** The binary64 nearest to [p / q] (ties to even), for [0 <= p] and
    [0 < q], with the sign [neg]. *)
Definition of_ratio (neg : bool) (p q : Z) : number :=
  match p with
  | Z0 => S754_zero neg
  | Zpos _ =>
      let '(mz, ez, lz) := SFdiv_core_binary prec emax p 0 q 0 in
      binary_round_aux prec emax neg mz ez lz
  | Zneg _ => NaN
  end.

(** [of_scaled neg m e] is the number nearest to [m * 10^e]. *)
Definition of_scaled (neg : bool) (m e : Z) : number :=
  if (0 <=? e)%Z then of_ratio neg (m * 10 ^ e) 1
  else of_ratio neg m (10 ^ (- e)).

Definition eqb (x y : number) : bool :=
  match x, y with
  | S754_zero a, S754_zero b => Bool.eqb a b
  | S754_infinity a, S754_infinity b => Bool.eqb a b
  | S754_nan, S754_nan => true
  | S754_finite a m e, S754_finite b m' e' =>
      Bool.eqb a b && Pos.eqb m m' && Z.eqb e e'
  | _, _ => false
  end.

End Number.

(* ================================================================= *)
(** ** Characters and strings *)

Definition isDigit (c : ascii) : bool :=
  let n := nat_of_ascii c in (48 <=? n)%nat && (n <=? 57)%nat.

Definition digitValue (c : ascii) : Z := Z.of_nat (nat_of_ascii c - 48).

(** White space and line terminators skipped by [parseFloat]. *)
Definition isWhiteSpace (c : ascii) : bool :=
  let n := nat_of_ascii c in
  ((9 <=? n)%nat && (n <=? 13)%nat) || (n =? 32)%nat || (n =? 160)%nat.

(** [s[i]]: the character at index [i], or [None] (undefined) out of range. *)
Fixpoint charAt (s : string) (i : nat) : option ascii :=
  match s, i with
  | EmptyString, _ => None
  | String c _, O => Some c
  | String _ s', S i' => charAt s' i'
  end.

(** [s.indexOf(c, from)]: the index of the first [c] at a position
    not before [from]. *)
Fixpoint indexOf (c : ascii) (s : string) (from : nat) : option nat :=
  match s with
  | EmptyString => None
  | String a s' =>
      match from with
      | O => if Ascii.eqb a c then Some O else option_map S (indexOf c s' O)
      | S from' => option_map S (indexOf c s' from')
      end
  end.

Fixpoint drop (n : nat) (s : string) : string :=
  match n, s with
  | O, _ => s
  | S _, EmptyString => EmptyString
  | S n', String _ s' => drop n' s'
  end.

Fixpoint take (n : nat) (s : string) : string :=
  match n, s with
  | O, _ => EmptyString
  | S _, EmptyString => EmptyString
  | S n', String c s' => String c (take n' s')
  end.

(** [s.slice(a, b)] for non-negative [a] and [b]. *)
Definition slice (s : string) (a b : nat) : string := take (b - a) (drop a s).

(** [s.slice(a)]. *)
Definition sliceFrom (s : string) (a : nat) : string := drop a s.

Fixpoint repeat_char (c : ascii) (n : nat) : string :=
  match n with
  | O => EmptyString
  | S n' => String c (repeat_char c n')
  end.

Fixpoint forallb_string (p : ascii -> bool) (s : string) : bool :=
  match s with
  | EmptyString => true
  | String c s' => p c && forallb_string p s'
  end.

(* ================================================================= *)
(** ** parseFloat *)

(** The longest run of decimal digits at the front of [s]: its value
    accumulated onto [acc], the number of digits read, and the rest. *)
Fixpoint scanDigits (s : string) (acc : Z) (n : nat) : Z * nat * string :=
  match s with
  | String c s' =>
      if isDigit c then scanDigits s' (10 * acc + digitValue c)%Z (S n)
      else (acc, n, s)
  | EmptyString => (acc, n, s)
  end.

Fixpoint trimStart (s : string) : string :=
  match s with
  | String c s' => if isWhiteSpace c then trimStart s' else s
  | EmptyString => EmptyString
  end.

(** The optional exponent part [e|E (+|-)? digits]; [0] when absent or
    incomplete (the literal prefix then stops before the indicator). *)
Definition scanExponent (s : string) : Z :=
  match s with
  | String c s' =>
      if Ascii.eqb c "e" || Ascii.eqb c "E" then
        match s' with
        | String sg s'' =>
            if Ascii.eqb sg "-" then
              let '(v, n, _) := scanDigits s'' 0%Z O in
              match n with O => 0%Z | _ => (- v)%Z end
            else if Ascii.eqb sg "+" then
              let '(v, _, _) := scanDigits s'' 0%Z O in v
            else
              let '(v, _, _) := scanDigits s' 0%Z O in v
        | EmptyString => 0%Z
        end
      else 0%Z
  | EmptyString => 0%Z
  end.

(** The value of the longest prefix of [s] that is an unsigned decimal
    literal, with sign [neg]; [NaN] when there is no such prefix. *)
Definition parseUnsigned (neg : bool) (s : string) : number :=
  if prefix "Infinity" s then S754_infinity neg
  else
    let '(i, ni, r1) := scanDigits s 0%Z O in
    match r1 with
    | String "." r2 =>
        let '(m, nf, r3) := scanDigits r2 i O in
        match ni, nf with
        | O, O => Number.NaN
        | _, _ => Number.of_scaled neg m (scanExponent r3 - Z.of_nat nf)
        end
    | _ =>
        match ni with
        | O => Number.NaN
        | _ => Number.of_scaled neg i (scanExponent r1)
        end
    end.

Definition parseFloat (s : string) : number :=
  match trimStart s with
  | String "+" r => parseUnsigned false r
  | String "-" r => parseUnsigned true r
  | t => parseUnsigned false t
  end.

(* ================================================================= *)
(** ** Number to String *)

(** The decimal digits of a non-negative integer. *)
Definition digitsOfZ (z : Z) : string :=
  NilZero.string_of_uint (N.to_uint (Z.to_N z)).

(** The number of decimal digits of a positive integer. *)
Definition digits10 (z : Z) : Z := Z.of_nat (length (digitsOfZ z)).

(** A positive rational [p / q] scaled by [10^j]. *)
Definition scale10 (p q j : Z) : Z * Z :=
  if (0 <=? j)%Z then (p * 10 ^ j, q)%Z else (p, q * 10 ^ (- j))%Z.

(** The [n] with [10^(n-1) <= p / q < 10^n]. *)
Definition decade (p q : Z) : Z :=
  let n0 := (digits10 p - digits10 q)%Z in
  let '(p', q') := scale10 p q (- n0) in
  if (q' <=? p')%Z then (n0 + 1)%Z else n0.

(** Does the [k]-digit decimal [s * 10^(n-k)] denote the float [x]? *)
Definition denotes (x : number) (s n k : Z) : bool :=
  Number.eqb (Number.of_scaled false s (n - k)) x.

(** The [k]-digit candidate for [p / q] in decade [n]: the neighbour of
    [p / q * 10^(k-n)] that denotes [x], the nearer one when both do
    (the even one on a tie). *)
Definition candidate (x : number) (p q n k : Z) : option Z :=
  let '(pk, qk) := scale10 p q (k - n) in
  let lo := (pk / qk)%Z in
  let hi := (lo + 1)%Z in
  let r := (pk mod qk)%Z in
  let lo_first := ((2 * r <? qk) || ((2 * r =? qk) && Z.even lo))%Z in
  let '(a, b) := if lo_first then (lo, hi) else (hi, lo) in
  if denotes x a n k then Some a
  else if denotes x b n k then Some b
  else None.

(** The nearest [k]-digit decimal, taken when no shorter one denotes [x]. *)
Definition nearest (p q n k : Z) : Z :=
  let '(pk, qk) := scale10 p q (k - n) in
  let lo := (pk / qk)%Z in
  let r := (pk mod qk)%Z in
  if ((2 * r <? qk) || ((2 * r =? qk) && Z.even lo))%Z then lo else (lo + 1)%Z.

(** The shortest digit string denoting [x]: tries [k], [k+1], ... digits. *)
Fixpoint shortest (fuel : nat) (x : number) (p q n k : Z) : Z * Z :=
  match fuel with
  | O => (nearest p q n k, k)
  | S fuel' =>
      match candidate x p q n k with
      | Some s => (s, k)
      | None => shortest fuel' x p q n (k + 1)%Z
      end
  end.

Definition exponentSuffix (e : Z) : string :=
  "e" ++ (if (e <? 0)%Z then "-" else "+") ++ digitsOfZ (Z.abs e).

(** The string of the positive finite number [m * 2^e]. *)
Definition finiteToString (m : positive) (e : Z) : string :=
  let x := S754_finite false m e in
  let p := if (0 <=? e)%Z then (Zpos m * 2 ^ e)%Z else Zpos m in
  let q := if (0 <=? e)%Z then 1%Z else (2 ^ (- e))%Z in
  let n0 := decade p q in
  let '(s0, k0) := shortest 16 x p q n0 1 in
  (* a candidate that rounded up to [10^k] is the one digit [1] of the
     next decade *)
  let '(s, k, n) :=
    if (s0 =? 10 ^ k0)%Z then (1%Z, 1%Z, (n0 + 1)%Z) else (s0, k0, n0) in
  let ds := digitsOfZ s in
  if ((k <=? n) && (n <=? 21))%Z then
    ds ++ repeat_char "0" (Z.to_nat (n - k))
  else if ((0 <? n) && (n <=? 21))%Z then
    take (Z.to_nat n) ds ++ "." ++ drop (Z.to_nat n) ds
  else if ((-6 <? n) && (n <=? 0))%Z then
    "0." ++ repeat_char "0" (Z.to_nat (- n)) ++ ds
  else if (k =? 1)%Z then
    ds ++ exponentSuffix (n - 1)
  else
    take 1 ds ++ "." ++ drop 1 ds ++ exponentSuffix (n - 1).

(** [Number::toString(x)] in radix 10. *)
Definition numberToString (x : number) : string :=
  match x with
  | S754_nan => "NaN"
  | S754_zero _ => "0"
  | S754_infinity neg => (if neg then "-" else "") ++ "Infinity"
  | S754_finite neg m e => (if neg then "-" else "") ++ finiteToString m e
  end.

(* ================================================================= *)
(** ** Values, exceptions and completions *)

(** What the calculator's methods pass around: a number or a string. *)
Inductive value : Type :=
| VNum (x : number)
| VStr (s : string).

(** String conversion of a value, as in [`${v}`] and [string + v]. *)
Definition toString (v : value) : string :=
  match v with
  | VNum x => numberToString x
  | VStr s => s
  end.

(** [new Error(message)]. *)
Inductive exn : Type :=
| Error (message : string).

(** [`${error}`]: the name, then the message unless it is empty. *)
Definition exnToString (e : exn) : string :=
  match e with
  | Error EmptyString => "Error"
  | Error message => "Error: " ++ message
  end.

(** A method body either returns or throws. *)
Inductive completion (A : Type) : Type :=
| Normal (a : A)
| Throw (e : exn).

Arguments Normal {A} a.
Arguments Throw {A} e.

Definition bind {A B : Type} (c : completion A) (k : A -> completion B)
  : completion B :=
  match c with
  | Normal a => k a
  | Throw e => Throw e
  end.

Notation "x <- c ;; k" := (bind c (fun x => k))
  (at level 61, c at next level, right associativity).

(* ================================================================= *)
(** ** The Calculator *)

(** The class has no fields: an instance carries nothing. *)
Inductive Calculator : Type := new_Calculator.

Definition times : ascii := "*".
Definition slash : ascii := "/".
Definition plus : ascii := "+".
Definition minus : ascii := "-".
Definition openParen : ascii := "(".
Definition closeParen : ascii := ")".

(** [supportedOperators.includes(char)]. *)
Definition includes (l : list ascii) (c : ascii) : bool :=
  existsb (Ascii.eqb c) l.

(** The callback of [computeMD]. *)
Definition operateMD (a b : number) (operator : ascii) : completion number :=
  if Ascii.eqb operator times then Normal (Number.mul a b)
  else if Number.is_zero b then Throw (Error "Cannot divide by zero")
  else Normal (Number.div a b).

(** The callback of [computeAS]. *)
Definition operateAS (a b : number) (operator : ascii) : completion number :=
  Normal (if Ascii.eqb operator plus then Number.add a b else Number.sub a b).

(** The three locals of [solve] during its scan. *)
Record scanState : Type := mkScan {
  detectedNums : list number;
  operations : list ascii;
  numString : string
}.

Definition scanInit : scanState := mkScan [] [] "".

(** One iteration of [for (const char of expr)]. *)
Definition scanStep (supportedOperators : list ascii) (st : scanState)
  (char : ascii) : scanState :=
  if negb (includes supportedOperators char) then
    mkScan (detectedNums st) (operations st) (numString st ++ String char "")
  else
    mkScan (detectedNums st ++ [parseFloat (numString st)])%list
           (operations st ++ [char])%list "".

Fixpoint scan (supportedOperators : list ascii) (st : scanState)
  (expr : string) : scanState :=
  match expr with
  | EmptyString => st
  | String char rest =>
      scan supportedOperators (scanStep supportedOperators st char) rest
  end.

(** [/[^0-9.]/.test(s)]. *)
Definition hasInvalidChar (s : string) : bool :=
  negb (forallb_string (fun c => isDigit c || Ascii.eqb c ".") s).

(** The operator read by an out-of-range [operations[i - 1]]: undefined,
    which equals no operator character. *)
Definition noOperator : ascii := Ascii.zero.

(** [for (let i = 1; i < detectedNums.length; i++)], with [steps]
    iterations left.  An out-of-range operand is undefined, which the
    callbacks' arithmetic turns into NaN. *)
Fixpoint foldLoop (operateCallback : number -> number -> ascii -> completion number)
  (nums : list number) (ops : list ascii) (steps i : nat) (result : number)
  : completion number :=
  match steps with
  | O => Normal result
  | S steps' =>
      r <- operateCallback result (nth i nums Number.NaN)
                           (nth (i - 1) ops noOperator) ;;
      foldLoop operateCallback nums ops steps' (S i) r
  end.

Definition solve (expr : value) (supportedOperators : list ascii)
  (operateCallback : number -> number -> ascii -> completion number)
  : completion value :=
  let expr := toString expr in
  let st := scan supportedOperators scanInit expr in
  if hasInvalidChar (numString st) then Normal (VStr expr)
  else
    let nums := (detectedNums st ++ [parseFloat (numString st)])%list in
    result <- foldLoop operateCallback nums (operations st)
                       (List.length nums - 1) 1 (nth 0 nums Number.NaN) ;;
    Normal (VNum result).

Definition computeMD (expr : value) : completion value :=
  solve expr [times; slash] operateMD.

Definition computeAS (expr : value) : completion value :=
  solve expr [plus; minus] operateAS.

(** Is [expr[i]] the character [c]? *)
Definition charIs (expr : string) (i : nat) (c : ascii) : bool :=
  match charAt expr i with
  | Some a => Ascii.eqb a c
  | None => false
  end.

(** [for (let i = expr.length - 1; i >= 0; i--)], entered with [i + 1]. *)
Fixpoint findLoop (expr : string) (n : nat) : option (nat * nat) :=
  match n with
  | O => None
  | S i =>
      if charIs expr i openParen then
        match indexOf closeParen expr i with
        | Some closedBracket => Some (i, closedBracket)
        | None => findLoop expr i
        end
      else findLoop expr i
  end.

Definition __findInnermostBrackets (expr : string) : option (nat * nat) :=
  findLoop expr (length expr).

(** The two level passes that end [evaluateExpression]. *)
Definition levels (expr : string) : completion value :=
  e <- computeMD (VStr expr) ;; computeAS e.

(** The bracket loop of [evaluateExpression]: the expression left when
    no bracket pair is found any more.  [None] is running out of [fuel];
    each iteration, and each recursive call, uses one unit. *)
Fixpoint bracketLoop (fuel : nat) (expr : string)
  : option (completion string) :=
  match fuel with
  | O => None
  | S fuel' =>
      match __findInnermostBrackets expr with
      | None => Some (Normal expr)
      | Some (openBracket, closedBracket) =>
          let innerExpr := slice expr (openBracket + 1) closedBracket in
          let leftOuter := slice expr 0 openBracket in
          let rightOuter := sliceFrom expr (closedBracket + 1) in
          (* this.evaluateExpression(innerExpr) *)
          match bracketLoop fuel' innerExpr with
          | None => None
          | Some (Throw e) => Some (Throw e)
          | Some (Normal flat) =>
              match levels flat with
              | Throw e => Some (Throw e)
              | Normal v =>
                  bracketLoop fuel' (leftOuter ++ toString v ++ rightOuter)
              end
          end
      end
  end.

Definition evaluateExpressionFuel (fuel : nat) (expr : string)
  : option (completion value) :=
  match bracketLoop fuel expr with
  | None => None
  | Some c => Some (flat <- c ;; levels flat)
  end.

(** The console: the lines written by [console.error]. *)
Definition console : Type := list string.

Definition computeFuel (this : Calculator) (fuel : nat) (log : console)
  (expression : string) : option (value * console) :=
  match evaluateExpressionFuel fuel expression with
  | None => None
  | Some (Normal v) => Some (v, log)
  | Some (Throw error) =>
      Some (VStr (exnToString error),
            (log ++ [("Error whilst calculating result: " ++ exnToString error)%string])%list)
  end.

(** The number of [(] in an expression bounds the bracket loop. *)
Fixpoint countChar (c : ascii) (s : string) : nat :=
  match s with
  | EmptyString => O
  | String a s' => (if Ascii.eqb a c then 1 else 0) + countChar c s'
  end.

Definition fuelFor (expr : string) : nat := S (countChar openParen expr).

(** The methods with the fuel that always suffices (see
    [bracketLoop_total]); the fallback branch is never taken. *)
Definition evaluateExpression (expr : string) : completion value :=
  match evaluateExpressionFuel (fuelFor expr) expr with
  | Some c => c
  | None => Normal (VStr expr)
  end.

Definition compute (this : Calculator) (log : console) (expression : string)
  : value * console :=
  match computeFuel this (fuelFor expression) log expression with
  | Some r => r
  | None => (VStr expression, log)
  end.

(* ================================================================= *)
(** ** Notions used to state the properties *)

(** No [(] at or after position [from] (and before [n]) is followed by a [)]. *)
Definition noPairFrom (expr : string) (from n : nat) : Prop :=
  forall j k, from <= j -> j < n -> charAt expr j = Some openParen ->
              j < k -> charAt expr k <> Some closeParen.

(** A parenthesis, opening or closing. *)
Definition isBracket (c : ascii) : bool :=
  Ascii.eqb c openParen || Ascii.eqb c closeParen.

(** A flat expression: no parenthesis at all. *)
Definition noBrackets (s : string) : bool :=
  forallb_string (fun c => negb (isBracket c)) s.

(** The expression left by the bracket loop, with the fuel that suffices. *)
Definition resolveBrackets (expr : string) : completion string :=
  match bracketLoop (fuelFor expr) expr with
  | Some c => c
  | None => Normal expr
  end.

(** The nesting depth after reading [s] from depth [d]; [None] when a
    [)] closes nothing. *)
Fixpoint depthAfter (d : nat) (s : string) : option nat :=
  match s with
  | EmptyString => Some d
  | String a s' =>
      if Ascii.eqb a openParen then depthAfter (S d) s'
      else if Ascii.eqb a closeParen then
        match d with
        | O => None
        | S d' => depthAfter d' s'
        end
      else depthAfter d s'
  end.

(** Every [(] has its [)] and conversely. *)
Definition balanced (s : string) : bool :=
  match depthAfter 0 s with
  | Some O => true
  | _ => false
  end.

(** No character of [s] is one of the operators [ops]. *)
Definition noneIn (ops : list ascii) (s : string) : bool :=
  forallb_string (fun c => negb (includes ops c)) s.

(** An expression seen at one level: a first token, then operators of
    the level each followed by a token. *)
Fixpoint joinTokens (t0 : string) (rest : list (ascii * string)) : string :=
  match rest with
  | [] => t0
  | (o, t) :: rest' => t0 ++ String o (joinTokens t rest')
  end.

(** The token after the last operator: the buffer the scan ends with. *)
Fixpoint lastToken (t0 : string) (rest : list (ascii * string)) : string :=
  match rest with
  | [] => t0
  | (_, t) :: rest' => lastToken t rest'
  end.

(** The numbers pushed during the scan: every token but the last. *)
Fixpoint scannedNums (t0 : string) (rest : list (ascii * string))
  : list number :=
  match rest with
  | [] => []
  | (_, t) :: rest' => parseFloat t0 :: scannedNums t rest'
  end.

(** The tokens hold no operator of the level, the separators are
    operators of the level. *)
Definition wellTokenised (ops : list ascii) (t0 : string)
  (rest : list (ascii * string)) : Prop :=
  noneIn ops t0 = true /\
  Forall (fun ot => includes ops (fst ot) = true /\ noneIn ops (snd ot) = true)
         rest.

(** A left fold that stops at the first throw. *)
Fixpoint foldLeftM {A B : Type} (f : A -> B -> completion A) (l : list B)
  (acc : A) : completion A :=
  match l with
  | [] => Normal acc
  | x :: l' => r <- f acc x ;; foldLeftM f l' r
  end.

(** The only error the calculator constructs. *)
Definition divisionByZero : exn := Error "Cannot divide by zero".

(** An operator of the addition/subtraction level. *)
Definition isLowOperator (c : ascii) : bool := includes [plus; minus] c.

(** A run of [compute] calls on one calculator, one after the other, the
    console threaded through. *)
Fixpoint session (this : Calculator) (log : console) (exprs : list string)
  : list value * console :=
  match exprs with
  | [] => ([], log)
  | e :: rest =>
      let '(v, log') := compute this log e in
      let '(vs, log'') := session this log' rest in
      (v :: vs, log'')
  end.

(** What [compute] returns, and what it logs, for a division by zero. *)
Definition errorText : string := "Error: Cannot divide by zero".

Definition errorLine : string :=
  "Error whilst calculating result: Error: Cannot divide by zero".

(* ================================================================= *)
(** ** Tokens of a level *)

(** The tokens of [s] at the level [ops]: the text before the first
    operator, then each operator with the text that follows it. *)
Fixpoint tokenise (ops : list ascii) (s : string)
  : string * list (ascii * string) :=
  match s with
  | EmptyString => (EmptyString, [])
  | String c s' =>
      let '(t0, rest) := tokenise ops s' in
      if includes ops c then (EmptyString, (c, t0) :: rest)
      else (String c t0, rest)
  end.

(** The number of characters of [s] that are operators of the level. *)
Fixpoint countIn (ops : list ascii) (s : string) : nat :=
  match s with
  | EmptyString => O
  | String c s' => (if includes ops c then 1 else 0) + countIn ops s'
  end.

(** A run of decimal digits. *)
Definition allDigits (s : string) : bool := forallb_string isDigit s.

(** The characters the text of a finite number is made of. *)
Definition isNumberChar (c : ascii) : bool :=
  isDigit c || Ascii.eqb c "." || Ascii.eqb c "e"
  || Ascii.eqb c plus || Ascii.eqb c minus.

(** One of the four operators. *)
Definition isOperator (c : ascii) : bool :=
  includes [times; slash; plus; minus] c.

(** The callback of [computeAS] as a plain operation: it never throws. *)
Definition applyAS (a : number) (ot : ascii * string) : number :=
  if Ascii.eqb (fst ot) plus then Number.add a (parseFloat (snd ot))
  else Number.sub a (parseFloat (snd ot)).

(* ================================================================= *)
(** ** The self-test *)

(** A line of [console.log] or of [console.error]. *)
Inductive consoleEntry : Type :=
| LogEntry (line : string)
| ErrorEntry (line : string).

(** [result === expected] for a number [expected]: a string is never
    equal to it, NaN equals nothing, the two zeros are equal. *)
Definition strictEquals (result : value) (expected : number) : bool :=
  match result with
  | VNum x => SFeqb x expected
  | VStr _ => false
  end.

(** The text of an array index. *)
Definition indexText (i : nat) : string :=
  numberToString (Number.of_Z (Z.of_nat i)).

(** The body of [testExpressions.forEach]: calls [i], [i + 1], ... on
    the remaining tests, [out] being what the console holds so far.  A
    throw of [evaluateExpression] is not caught here: it ends the run,
    and the console keeps the lines written before it. *)
Fixpoint forEachTest (tests : list (string * number)) (i : nat)
  (out : list consoleEntry) : list consoleEntry * completion unit :=
  match tests with
  | [] => (out, Normal tt)
  | (expr, expected) :: rest =>
      match evaluateExpression expr with
      | Throw e => (out, Throw e)
      | Normal result =>
          forEachTest rest (S i)
            (out ++ [if strictEquals result expected then
                       LogEntry ("Test " ++ indexText i ++ " passed")
                     else
                       ErrorEntry ("Test " ++ indexText i
                                     ++ " failed. Expected: "
                                     ++ numberToString expected ++ " got "
                                     ++ toString result)])%list
      end
  end.

Definition testExpressions : list (string * number) :=
  [("2+2", Number.of_Z 4); ("2-1", Number.of_Z 1); ("3*4", Number.of_Z 12);
   ("10/2", Number.of_Z 5); ("2+(2*5)", Number.of_Z 12);
   ("2*(2+5)", Number.of_Z 14); ("(2+1)*(4-3)", Number.of_Z 3);
   ("12*(12-(6+6))", Number.of_Z 0); ("12*(12-(6))", Number.of_Z 72)].

Definition testEvaluateExpression : list consoleEntry * completion unit :=
  forEachTest testExpressions 0 [].

(* ================================================================= *)
(** ** The button handlers *)

(** What the page holds: the global [problem], the text of the screen
    element, and the console. *)
Record page : Type := mkPage {
  problem : string;
  screenText : string;
  pageLog : console
}.

(** [calculateExpression()]. *)
Definition calculateExpression (calculator : Calculator) (st : page)
  : value * console :=
  compute calculator (pageLog st) (problem st).

(** The click handler installed by [setupEventHandlers], for a button
    whose [data-value] attribute is [character] ([None] is the null of a
    missing attribute, which string concatenation spells out). *)
Definition click (calculator : Calculator) (character : option string)
  (st : page) : page :=
  match character with
  | Some c =>
      if String.eqb c "=" then
        let '(v, log') := calculateExpression calculator st in
        mkPage (problem st) (toString v) log'
      else if String.eqb c "Cancel" then mkPage "" "" (pageLog st)
      else mkPage (problem st ++ c) (problem st ++ c) (pageLog st)
  | None =>
      mkPage (problem st ++ "null") (problem st ++ "null") (pageLog st)
  end.

(** A sequence of clicks, in order. *)
Definition clicks (calculator : Calculator) (characters : list (option string))
  (st : page) : page :=
  fold_left (fun s c => click calculator c s) characters st.

(** A button that only appends its character. *)
Definition isCharacterButton (c : string) : bool :=
  negb (String.eqb c "=") && negb (String.eqb c "Cancel").

(** The clicks of a run of character buttons. *)
Definition typed (cs : list string) : list (option string) := map Some cs.

(* ================================================================= *)
(** ** Strings: indices, slices and counting *)

Section StringFacts.

Lemma charAt_length (s : string) (i : nat) :
  charAt s i <> None <-> i < length s.
Proof.
  revert i; induction s as [|a s IH]; intros [|i]; simpl;
    try (split; [congruence | lia]); try (split; [intros _; lia | discriminate]).
  rewrite IH; lia.
Qed.

Lemma charAt_some_lt (s : string) (i : nat) (a : ascii) :
  charAt s i = Some a -> i < length s.
Proof. intros H; apply charAt_length; congruence. Qed.

Lemma indexOf_some (c : ascii) (s : string) :
  forall from k,
    indexOf c s from = Some k ->
    from <= k /\ charAt s k = Some c /\
    (forall j, from <= j -> j < k -> charAt s j <> Some c).
Proof.
  induction s as [|a s IH]; simpl; intros from k H; [discriminate|].
  destruct from as [|from].
  - destruct (Ascii.eqb a c) eqn:E.
    + injection H as <-. apply Ascii.eqb_eq in E; subst.
      repeat split; auto; lia.
    + destruct (indexOf c s 0) as [k'|] eqn:E'; [|discriminate].
      injection H as <-. destruct (IH _ _ E') as (_ & Hk & Hj).
      repeat split; [lia | exact Hk |].
      intros [|j] _ Hlt; simpl.
      * intros [= ->]. rewrite Ascii.eqb_refl in E; discriminate.
      * apply Hj; lia.
  - destruct (indexOf c s from) as [k'|] eqn:E'; [|discriminate].
    injection H as <-. destruct (IH _ _ E') as (Hle & Hk & Hj).
    repeat split; [lia | exact Hk |].
    intros [|j] Hge Hlt; [lia|]. simpl. apply Hj; lia.
Qed.

Lemma indexOf_none (c : ascii) (s : string) :
  forall from j,
    indexOf c s from = None -> from <= j -> charAt s j <> Some c.
Proof.
  induction s as [|a s IH]; simpl; intros from j H Hle; [discriminate|].
  destruct from as [|from].
  - destruct (Ascii.eqb a c) eqn:E; [discriminate|].
    destruct (indexOf c s 0) eqn:E'; [discriminate|].
    destruct j as [|j].
    + intros [= ->]. rewrite Ascii.eqb_refl in E; discriminate.
    + apply (IH 0); [assumption | lia].
  - destruct (indexOf c s from) eqn:E'; [discriminate|].
    destruct j as [|j]; [lia|]. apply (IH from); [assumption | lia].
Qed.

Lemma charIs_true (s : string) (i : nat) (c : ascii) :
  charIs s i c = true <-> charAt s i = Some c.
Proof.
  unfold charIs. destruct (charAt s i) as [a|]; [|split; discriminate].
  rewrite Ascii.eqb_eq. split; congruence.
Qed.

Lemma take_drop (n : nat) (s : string) : take n s ++ drop n s = s.
Proof.
  revert s; induction n as [|n IH]; intros [|a s]; simpl; auto.
  now rewrite IH.
Qed.

Lemma drop_drop (n m : nat) (s : string) : drop n (drop m s) = drop (m + n) s.
Proof.
  revert s; induction m as [|m IH]; intros s; simpl; auto.
  destruct s as [|a s]; [now destruct n | apply IH].
Qed.

Lemma drop_charAt (n : nat) (s : string) (a : ascii) :
  charAt s n = Some a -> drop n s = String a (drop (S n) s).
Proof.
  revert s; induction n as [|n IH]; intros [|b s]; simpl; try discriminate.
  - now intros [= ->].
  - apply IH.
Qed.

Lemma charAt_drop (n i : nat) (s : string) :
  charAt (drop n s) i = charAt s (n + i).
Proof.
  revert s; induction n as [|n IH]; intros s; simpl; auto.
  destruct s as [|b s]; simpl; [now destruct i | apply IH].
Qed.

Lemma charAt_take (n i : nat) (s : string) :
  i < n -> charAt (take n s) i = charAt s i.
Proof.
  revert i s; induction n as [|n IH]; intros i s Hlt; [lia|].
  destruct s as [|b s]; simpl; auto.
  destruct i as [|i]; simpl; auto. apply IH; lia.
Qed.

Lemma charAt_take_none (n i : nat) (s : string) :
  n <= i -> charAt (take n s) i = None.
Proof.
  revert i s; induction n as [|n IH]; intros i s Hle; simpl; auto.
  destruct s as [|b s]; simpl; auto.
  destruct i as [|i]; [lia|]. apply IH; lia.
Qed.

Lemma countChar_app (c : ascii) (s t : string) :
  countChar c (s ++ t) = countChar c s + countChar c t.
Proof. induction s as [|a s IH]; simpl; auto. rewrite IH; lia. Qed.

Lemma countChar_zero (c : ascii) (s : string) :
  countChar c s = 0 <-> (forall i, charAt s i <> Some c).
Proof.
  induction s as [|a s IH]; simpl.
  - split; [intros _ i; destruct i; discriminate | auto].
  - destruct (Ascii.eqb a c) eqn:E; simpl.
    + apply Ascii.eqb_eq in E; subst.
      split; [discriminate | intros H; now destruct (H 0)].
    + rewrite IH. split.
      * intros H [|i]; simpl; [|apply H].
        intros [= ->]. rewrite Ascii.eqb_refl in E; discriminate.
      * intros H i. apply (H (S i)).
Qed.

(** The shape of an expression around a bracket pair. *)
Lemma split_at_pair (s : string) (o c : nat) (a b : ascii) :
  o < c -> charAt s o = Some a -> charAt s c = Some b ->
  s = slice s 0 o ++ String a (slice s (o + 1) c)
        ++ String b (sliceFrom s (c + 1)).
Proof.
  intros Hlt Ho Hc. unfold slice, sliceFrom.
  rewrite Nat.sub_0_r. simpl drop at 1.
  rewrite <- (take_drop o s) at 1. f_equal.
  rewrite (drop_charAt _ _ _ Ho). f_equal.
  replace (o + 1) with (S o) by lia.
  rewrite <- (take_drop (c - S o) (drop (S o) s)) at 1. f_equal.
  rewrite drop_drop. replace (S o + (c - S o)) with c by lia.
  rewrite (drop_charAt _ _ _ Hc). now replace (c + 1) with (S c) by lia.
Qed.

End StringFacts.

(* ================================================================= *)
(** ** The bracket finder *)

Lemma findLoop_some (expr : string) :
  forall n o c,
    findLoop expr n = Some (o, c) ->
    o < n /\ charAt expr o = Some openParen /\
    indexOf closeParen expr o = Some c /\
    noPairFrom expr (S o) n.
Proof.
  induction n as [|i IH]; simpl; intros o c H; [discriminate|].
  assert (Hrec : findLoop expr i = Some (o, c) ->
                 charIs expr i openParen = false \/
                 indexOf closeParen expr i = None ->
                 o < S i /\ charAt expr o = Some openParen /\
                 indexOf closeParen expr o = Some c /\
                 noPairFrom expr (S o) (S i)).
  { intros Hf Hi. destruct (IH _ _ Hf) as (Hlt & Ho & Hc & Hno).
    repeat split; auto. intros j k Hge Hj Hopen Hjk.
    destruct (Nat.eq_dec j i) as [->|Hne].
    - destruct Hi as [Hi|Hi].
      + apply charIs_true in Hopen. congruence.
      + apply (indexOf_none _ _ _ _ Hi). lia.
    - apply (Hno j k); auto; lia. }
  destruct (charIs expr i openParen) eqn:Ei; [|apply Hrec; auto].
  destruct (indexOf closeParen expr i) as [cl|] eqn:Ec; [|apply Hrec; auto].
  injection H as <- <-. apply charIs_true in Ei.
  repeat split; auto. intros j k Hge Hj; lia.
Qed.

Lemma findLoop_none (expr : string) :
  forall n, findLoop expr n = None -> noPairFrom expr 0 n.
Proof.
  induction n as [|i IH]; simpl; intros H j k Hge Hj Hopen Hjk; [lia|].
  destruct (charIs expr i openParen) eqn:Ei.
  - destruct (indexOf closeParen expr i) eqn:Ec; [discriminate|].
    destruct (Nat.eq_dec j i) as [->|Hne].
    + apply (indexOf_none _ _ _ _ Ec). lia.
    + apply (IH H j k); auto; lia.
  - destruct (Nat.eq_dec j i) as [->|Hne].
    + apply charIs_true in Hopen. congruence.
    + apply (IH H j k); auto; lia.
Qed.

(** What a found pair looks like. *)
Lemma findInnermostBrackets_some (expr : string) (o c : nat) :
  __findInnermostBrackets expr = Some (o, c) ->
  o < c /\ c < length expr /\
  charAt expr o = Some openParen /\ charAt expr c = Some closeParen /\
  (forall j, o <= j -> j < c -> charAt expr j <> Some closeParen) /\
  (forall j k, o < j -> charAt expr j = Some openParen -> j < k ->
               charAt expr k <> Some closeParen).
Proof.
  intros H. apply findLoop_some in H. destruct H as (Hlt & Ho & Hc & Hno).
  destruct (indexOf_some _ _ _ _ Hc) as (Hle & Hcl & Hfirst).
  assert (o <> c) by (intros ->; rewrite Ho in Hcl; discriminate).
  repeat split; auto; try lia.
  - eapply charAt_some_lt; eauto.
  - intros j k Hj Hopen Hjk. apply (Hno j k); auto.
    eapply charAt_some_lt; eauto.
Qed.

Lemma findInnermostBrackets_none (expr : string) :
  __findInnermostBrackets expr = None ->
  forall j k, charAt expr j = Some openParen -> j < k ->
              charAt expr k <> Some closeParen.
Proof.
  intros H j k Hopen Hjk. apply (findLoop_none _ _ H j k); auto; [lia|].
  eapply charAt_some_lt; eauto.
Qed.

(* ================================================================= *)
(** ** Bracket-free strings *)

Section BracketFree.

Lemma forallb_string_app (p : ascii -> bool) (s t : string) :
  forallb_string p (s ++ t) = forallb_string p s && forallb_string p t.
Proof. induction s as [|a s IH]; simpl; auto. now rewrite IH, andb_assoc. Qed.

Lemma forallb_string_take (p : ascii -> bool) (n : nat) (s : string) :
  forallb_string p s = true -> forallb_string p (take n s) = true.
Proof.
  revert s; induction n as [|n IH]; intros [|a s]; simpl; auto.
  intros H; apply andb_prop in H as [-> H]; simpl; auto.
Qed.

Lemma forallb_string_drop (p : ascii -> bool) (n : nat) (s : string) :
  forallb_string p s = true -> forallb_string p (drop n s) = true.
Proof.
  revert s; induction n as [|n IH]; intros [|a s]; simpl; auto.
  intros H; apply andb_prop in H as [_ H]; auto.
Qed.

Lemma forallb_string_repeat (p : ascii -> bool) (c : ascii) (n : nat) :
  p c = true -> forallb_string p (repeat_char c n) = true.
Proof. intros H; induction n; simpl; auto. now rewrite H. Qed.

Lemma forallb_string_charAt (p : ascii -> bool) (s : string) :
  forallb_string p s = true <->
  (forall i a, charAt s i = Some a -> p a = true).
Proof.
  induction s as [|b s IH]; simpl.
  - split; auto. intros _ [|i] a; discriminate.
  - rewrite andb_true_iff, IH. split.
    + intros [Hb Hs] [|i] a; simpl; [now intros [= <-] | apply Hs].
    + intros H; split; [apply (H 0); auto | intros i; apply (H (S i))].
Qed.

Lemma noBrackets_app (s t : string) :
  noBrackets (s ++ t) = noBrackets s && noBrackets t.
Proof. apply forallb_string_app. Qed.

Lemma noBrackets_count (s : string) (c : ascii) :
  noBrackets s = true -> isBracket c = true -> countChar c s = 0.
Proof.
  intros Hs Hc. apply countChar_zero. intros i Hi.
  unfold noBrackets in Hs. rewrite forallb_string_charAt in Hs.
  apply Hs in Hi. now rewrite Hc in Hi.
Qed.

Lemma noBrackets_intro (s : string) :
  (forall i, charAt s i <> Some openParen) ->
  (forall i, charAt s i <> Some closeParen) ->
  noBrackets s = true.
Proof.
  intros Ho Hc. apply forallb_string_charAt. intros i a Hi.
  unfold isBracket. destruct (Ascii.eqb a openParen) eqn:E1.
  - apply Ascii.eqb_eq in E1; subst. now destruct (Ho i).
  - destruct (Ascii.eqb a closeParen) eqn:E2; auto.
    apply Ascii.eqb_eq in E2; subst. now destruct (Hc i).
Qed.

Lemma findLoop_noOpen (s : string) (n : nat) :
  countChar openParen s = 0 -> findLoop s n = None.
Proof.
  intros H. rewrite countChar_zero in H.
  induction n as [|i IH]; simpl; auto.
  destruct (charIs s i openParen) eqn:E; auto.
  apply charIs_true in E. now destruct (H i).
Qed.

Lemma findInnermostBrackets_flat (s : string) :
  noBrackets s = true -> __findInnermostBrackets s = None.
Proof.
  intros H. apply findLoop_noOpen. now apply noBrackets_count.
Qed.

(** The text between an innermost pair is flat. *)
Lemma inner_noBrackets (expr : string) (o c : nat) :
  __findInnermostBrackets expr = Some (o, c) ->
  noBrackets (slice expr (o + 1) c) = true.
Proof.
  intros H.
  destruct (findInnermostBrackets_some _ _ _ H)
    as (Hlt & Hlen & Ho & Hc & Hfirst & Hlast).
  unfold slice. apply noBrackets_intro; intros i Hi.
  - destruct (Nat.lt_ge_cases i (c - (o + 1))) as [Hin|Hout].
    + rewrite charAt_take, charAt_drop in Hi by assumption.
      apply (Hlast (o + 1 + i) c); auto; lia.
    + rewrite charAt_take_none in Hi by assumption. discriminate.
  - destruct (Nat.lt_ge_cases i (c - (o + 1))) as [Hin|Hout].
    + rewrite charAt_take, charAt_drop in Hi by assumption.
      apply (Hfirst (o + 1 + i)); auto; lia.
    + rewrite charAt_take_none in Hi by assumption. discriminate.
Qed.

(** Replacing an innermost group by flat text removes one [(]. *)
Lemma replace_count (expr t : string) (o c : nat) :
  __findInnermostBrackets expr = Some (o, c) ->
  noBrackets t = true ->
  S (countChar openParen
       (slice expr 0 o ++ t ++ sliceFrom expr (c + 1)))
  = countChar openParen expr.
Proof.
  intros H Ht.
  destruct (findInnermostBrackets_some _ _ _ H) as (Hlt & _ & Ho & Hc & _).
  pose proof (f_equal (countChar openParen)
                (split_at_pair expr o c _ _ Hlt Ho Hc)) as Hs.
  rewrite Hs. rewrite !countChar_app. simpl countChar.
  rewrite ?countChar_app. simpl countChar.
  rewrite (noBrackets_count t openParen Ht eq_refl).
  rewrite (noBrackets_count _ openParen (inner_noBrackets _ _ _ H) eq_refl).
  change (Ascii.eqb openParen openParen) with true.
  change (Ascii.eqb closeParen openParen) with false. lia.
Qed.

End BracketFree.

(* ================================================================= *)
(** ** The text of a number holds no bracket *)

Section NumberText.

Lemma forallb_string_impl (p q : ascii -> bool) (s : string) :
  (forall c, p c = true -> q c = true) ->
  forallb_string p s = true -> forallb_string q s = true.
Proof.
  intros Hpq. induction s as [|a s IH]; simpl; auto.
  intros H; apply andb_prop in H as [Ha Hs].
  now rewrite (Hpq _ Ha), IH.
Qed.

Lemma digit_not_bracket (c : ascii) :
  isDigit c = true -> negb (isBracket c) = true.
Proof.
  destruct c as [[] [] [] [] [] [] [] []]; vm_compute; auto.
Qed.

Lemma string_of_uint_digits (d : Decimal.uint) :
  forallb_string isDigit (NilEmpty.string_of_uint d) = true.
Proof. induction d; simpl; auto. Qed.

Lemma digitsOfZ_digits (z : Z) : forallb_string isDigit (digitsOfZ z) = true.
Proof.
  unfold digitsOfZ, NilZero.string_of_uint.
  destruct (N.to_uint (Z.to_N z)) eqn:E; try reflexivity;
    rewrite <- E; apply string_of_uint_digits.
Qed.

Lemma digitsOfZ_noBrackets (z : Z) : noBrackets (digitsOfZ z) = true.
Proof.
  apply (forallb_string_impl isDigit); [apply digit_not_bracket|].
  apply digitsOfZ_digits.
Qed.

Lemma exponentSuffix_noBrackets (e : Z) :
  noBrackets (exponentSuffix e) = true.
Proof.
  unfold exponentSuffix. rewrite !noBrackets_app, digitsOfZ_noBrackets.
  now destruct (e <? 0)%Z.
Qed.

Lemma finiteToString_noBrackets (m : positive) (e : Z) :
  noBrackets (finiteToString m e) = true.
Proof.
  unfold finiteToString.
  repeat match goal with
         | |- context [let '(_, _) := ?x in _] => destruct x
         | |- context [if ?b then _ else _] => destruct b
         end;
    rewrite ?noBrackets_app, ?andb_true_iff; repeat split;
    try reflexivity;
    try apply forallb_string_take; try apply forallb_string_drop;
    try (apply forallb_string_repeat; reflexivity);
    try apply digitsOfZ_noBrackets; try apply exponentSuffix_noBrackets.
Qed.

Lemma numberToString_noBrackets (x : number) :
  noBrackets (numberToString x) = true.
Proof.
  destruct x as [s|s| |s m e]; simpl; try reflexivity.
  - now destruct s.
  - rewrite noBrackets_app, finiteToString_noBrackets. now destruct s.
Qed.

End NumberText.

(* ================================================================= *)
(** ** Termination of the bracket loop *)

Section Termination.

(** [solve] returns a number or echoes the text it was given. *)
Lemma solve_result (v : value) (ops : list ascii)
  (cb : number -> number -> ascii -> completion number) (r : value) :
  solve v ops cb = Normal r ->
  (exists x, r = VNum x) \/ r = VStr (toString v).
Proof.
  unfold solve.
  destruct (hasInvalidChar _); [intros [= <-]; now right|].
  destruct (foldLoop _ _ _ _ _ _); simpl; [|discriminate].
  intros [= <-]. left; eauto.
Qed.

Lemma solve_noBrackets (v : value) (ops : list ascii)
  (cb : number -> number -> ascii -> completion number) (r : value) :
  noBrackets (toString v) = true ->
  solve v ops cb = Normal r -> noBrackets (toString r) = true.
Proof.
  intros Hv H. destruct (solve_result _ _ _ _ H) as [[x ->]| ->]; simpl.
  - apply numberToString_noBrackets.
  - exact Hv.
Qed.

Lemma levels_noBrackets (flat : string) (v : value) :
  noBrackets flat = true ->
  levels flat = Normal v -> noBrackets (toString v) = true.
Proof.
  unfold levels, computeMD, computeAS. intros Hf.
  destruct (solve (VStr flat) _ _) as [e|] eqn:E; simpl; [|discriminate].
  apply solve_noBrackets. apply (solve_noBrackets (VStr flat) _ _ _ Hf E).
Qed.

Lemma bracketLoop_flat (fuel : nat) (s : string) :
  noBrackets s = true -> bracketLoop (S fuel) s = Some (Normal s).
Proof. intros H. simpl. now rewrite findInnermostBrackets_flat. Qed.

Lemma findInnermostBrackets_count (expr : string) (o c : nat) :
  __findInnermostBrackets expr = Some (o, c) ->
  0 < countChar openParen expr.
Proof.
  intros H. destruct (findInnermostBrackets_some _ _ _ H)
    as (_ & _ & Ho & _).
  destruct (countChar openParen expr) eqn:E; [|lia].
  rewrite countChar_zero in E. now destruct (E o).
Qed.

(** More opening brackets than fuel never happens: the loop returns. *)
Lemma bracketLoop_total :
  forall fuel expr,
    countChar openParen expr < fuel ->
    exists r, bracketLoop fuel expr = Some r.
Proof.
  induction fuel as [|fuel IH]; intros expr Hlt; [lia|].
  simpl. destruct (__findInnermostBrackets expr) as [[o c]|] eqn:E; eauto.
  pose proof (findInnermostBrackets_count _ _ _ E) as Hpos.
  pose proof (inner_noBrackets _ _ _ E) as Hin.
  destruct fuel as [|fuel]; [lia|].
  rewrite (bracketLoop_flat _ _ Hin).
  destruct (levels _) as [v|e] eqn:El; eauto.
  apply IH.
  pose proof (replace_count expr (toString v) o c E
                (levels_noBrackets _ _ Hin El)).
  lia.
Qed.

(** Fuel beyond what a run needs does not change its result. *)
Lemma bracketLoop_mono :
  forall fuel expr r,
    bracketLoop fuel expr = Some r ->
    forall fuel', fuel <= fuel' -> bracketLoop fuel' expr = Some r.
Proof.
  induction fuel as [|fuel IH]; intros expr r H fuel' Hle; [discriminate|].
  destruct fuel' as [|fuel']; [lia|].
  simpl in *. destruct (__findInnermostBrackets expr) as [[o c]|]; auto.
  destruct (bracketLoop fuel _) as [[flat|e]|] eqn:E1; [| |discriminate].
  - rewrite (IH _ _ E1 fuel') by lia.
    destruct (levels flat); auto. apply (IH _ _ H). lia.
  - rewrite (IH _ _ E1 fuel') by lia. assumption.
Qed.

Lemma bracketLoop_enough (fuel : nat) (expr : string) :
  countChar openParen expr < fuel ->
  bracketLoop fuel expr = Some (resolveBrackets expr).
Proof.
  intros Hlt. unfold resolveBrackets.
  destruct (bracketLoop_total (fuelFor expr) expr) as [r Hr];
    [unfold fuelFor; lia|].
  rewrite Hr. apply (bracketLoop_mono _ _ _ Hr). unfold fuelFor. lia.
Qed.

Lemma evaluateExpression_resolve (expr : string) :
  evaluateExpression expr = (flat <- resolveBrackets expr ;; levels flat).
Proof.
  unfold evaluateExpression, evaluateExpressionFuel.
  rewrite (bracketLoop_enough (fuelFor expr) expr) by (unfold fuelFor; lia).
  reflexivity.
Qed.

Lemma evaluateExpressionFuel_enough (fuel : nat) (expr : string) :
  countChar openParen expr < fuel ->
  evaluateExpressionFuel fuel expr = Some (evaluateExpression expr).
Proof.
  intros Hlt. unfold evaluateExpressionFuel.
  rewrite (bracketLoop_enough _ _ Hlt).
  now rewrite evaluateExpression_resolve.
Qed.

Lemma computeFuel_enough (this : Calculator) (fuel : nat) (log : console)
  (expression : string) :
  countChar openParen expression < fuel ->
  computeFuel this fuel log expression = Some (compute this log expression).
Proof.
  intros Hlt. unfold compute, computeFuel.
  rewrite (evaluateExpressionFuel_enough _ _ Hlt).
  rewrite (evaluateExpressionFuel_enough (fuelFor expression))
    by (unfold fuelFor; lia).
  now destruct (evaluateExpression expression).
Qed.

(** The loop, unfolded once, on the fuel-free functions. *)
Lemma resolveBrackets_none (expr : string) :
  __findInnermostBrackets expr = None ->
  resolveBrackets expr = Normal expr.
Proof.
  intros H. unfold resolveBrackets, fuelFor. simpl. now rewrite H.
Qed.

Lemma resolveBrackets_some (expr : string) (o c : nat) :
  __findInnermostBrackets expr = Some (o, c) ->
  resolveBrackets expr =
  (v <- evaluateExpression (slice expr (o + 1) c) ;;
   resolveBrackets (slice expr 0 o ++ toString v ++ sliceFrom expr (c + 1))).
Proof.
  intros H.
  pose proof (findInnermostBrackets_count _ _ _ H) as Hpos.
  pose proof (inner_noBrackets _ _ _ H) as Hin.
  assert (Hb : bracketLoop (fuelFor expr) expr = Some (resolveBrackets expr))
    by (apply bracketLoop_enough; unfold fuelFor; lia).
  unfold fuelFor in Hb. simpl in Hb. rewrite H in Hb.
  rewrite evaluateExpression_resolve.
  rewrite (resolveBrackets_none _ (findInnermostBrackets_flat _ Hin)).
  simpl bind.
  rewrite (bracketLoop_enough (countChar openParen expr)) in Hb
    by (rewrite (noBrackets_count _ openParen Hin eq_refl); lia).
  rewrite (resolveBrackets_none _ (findInnermostBrackets_flat _ Hin)) in Hb.
  destruct (levels _) as [v|e] eqn:El; simpl; [|congruence].
  rewrite bracketLoop_enough in Hb; [congruence|].
  pose proof (replace_count expr (toString v) o c H
                (levels_noBrackets _ _ Hin El)).
  lia.
Qed.

End Termination.

(* ================================================================= *)
(** ** Balanced expressions *)

Section Balanced.

Lemma depthAfter_app (s t : string) :
  forall d,
    depthAfter d (s ++ t) =
    match depthAfter d s with
    | Some d' => depthAfter d' t
    | None => None
    end.
Proof.
  induction s as [|a s IH]; simpl; intros d; auto.
  destruct (Ascii.eqb a openParen); auto.
  destruct (Ascii.eqb a closeParen); auto.
  destruct d; auto.
Qed.

Lemma depthAfter_flat (s : string) :
  noBrackets s = true -> forall d, depthAfter d s = Some d.
Proof.
  unfold noBrackets, isBracket.
  induction s as [|a s IH]; simpl; intros H d; auto.
  apply andb_prop in H as [Ha Hs].
  destruct (Ascii.eqb a openParen); [discriminate|].
  destruct (Ascii.eqb a closeParen); [discriminate|]. auto.
Qed.

(** Coming back below the starting depth takes a [)]. *)
Lemma depthAfter_close (s : string) :
  forall d d', depthAfter d s = Some d' -> d' < d ->
               exists k, charAt s k = Some closeParen.
Proof.
  induction s as [|a s IH]; simpl; intros d d' H Hlt.
  - injection H as <-. lia.
  - destruct (Ascii.eqb a openParen) eqn:Eo.
    + destruct (IH _ _ H) as [k Hk]; [lia|]. now exists (S k).
    + destruct (Ascii.eqb a closeParen) eqn:Ec.
      * apply Ascii.eqb_eq in Ec; subst. now exists 0.
      * destruct (IH _ _ H Hlt) as [k Hk]. now exists (S k).
Qed.

(** A balanced expression in which no pair is found holds no bracket. *)
Lemma balanced_noPair_flat (s : string) :
  depthAfter 0 s = Some 0 ->
  (forall j k, charAt s j = Some openParen -> j < k ->
               charAt s k <> Some closeParen) ->
  noBrackets s = true.
Proof.
  unfold noBrackets, isBracket.
  induction s as [|a s IH]; simpl; intros H Hno; auto.
  destruct (Ascii.eqb a openParen) eqn:Eo.
  - apply Ascii.eqb_eq in Eo; subst.
    destruct (depthAfter_close _ _ _ H) as [k Hk]; [lia|].
    now destruct (Hno 0 (S k) eq_refl (Nat.lt_0_succ k)).
  - destruct (Ascii.eqb a closeParen); [discriminate|]. simpl.
    apply IH; auto. intros j k Hj Hjk. apply (Hno (S j) (S k)); auto; lia.
Qed.

(** Replacing an innermost group by flat text keeps the depth profile. *)
Lemma replace_depth (expr t : string) (o c : nat) :
  __findInnermostBrackets expr = Some (o, c) ->
  noBrackets t = true ->
  depthAfter 0 (slice expr 0 o ++ t ++ sliceFrom expr (c + 1))
  = depthAfter 0 expr.
Proof.
  intros H Ht.
  destruct (findInnermostBrackets_some _ _ _ H) as (Hlt & _ & Ho & Hc & _).
  pose proof (f_equal (depthAfter 0)
                (split_at_pair expr o c _ _ Hlt Ho Hc)) as Hs.
  rewrite Hs. rewrite !depthAfter_app.
  destruct (depthAfter 0 (slice expr 0 o)) as [d|]; auto.
  rewrite depthAfter_app, (depthAfter_flat _ Ht).
  cbn [append depthAfter].
  change (Ascii.eqb openParen openParen) with true. cbv iota.
  rewrite depthAfter_app.
  rewrite (depthAfter_flat _ (inner_noBrackets _ _ _ H)).
  cbn [depthAfter].
  change (Ascii.eqb closeParen openParen) with false.
  change (Ascii.eqb closeParen closeParen) with true. reflexivity.
Qed.

(** What the bracket loop leaves: an expression in which no pair is
    found, with the depth profile of the original when it returns. *)
Lemma bracketLoop_result :
  forall fuel expr flat,
    bracketLoop fuel expr = Some (Normal flat) ->
    __findInnermostBrackets flat = None /\
    depthAfter 0 flat = depthAfter 0 expr.
Proof.
  induction fuel as [|fuel IH]; intros expr flat H; [discriminate|].
  simpl in H. destruct (__findInnermostBrackets expr) as [[o c]|] eqn:E.
  - destruct (bracketLoop fuel (slice expr (o + 1) c))
      as [[inner|e]|] eqn:E1; try discriminate.
    destruct (levels inner) as [v|e] eqn:El; [|discriminate].
    pose proof (inner_noBrackets _ _ _ E) as Hin.
    assert (inner = slice expr (o + 1) c) as ->.
    { destruct fuel; [discriminate|].
      rewrite (bracketLoop_flat _ _ Hin) in E1. congruence. }
    destruct (IH _ _ H) as (Hnone & Hdepth). split; auto.
    rewrite Hdepth. apply replace_depth; auto.
    eapply levels_noBrackets; eauto.
  - injection H as <-. auto.
Qed.

Lemma resolveBrackets_flat (expr flat : string) :
  resolveBrackets expr = Normal flat ->
  __findInnermostBrackets flat = None /\
  (balanced expr = true -> noBrackets flat = true).
Proof.
  intros H.
  assert (Hb : bracketLoop (fuelFor expr) expr = Some (Normal flat)).
  { rewrite <- H. apply bracketLoop_enough. unfold fuelFor; lia. }
  destruct (bracketLoop_result _ _ _ Hb) as (Hnone & Hdepth).
  split; auto. unfold balanced. intros Hbal.
  apply balanced_noPair_flat.
  - rewrite Hdepth. destruct (depthAfter 0 expr) as [[|]|]; congruence.
  - apply findInnermostBrackets_none; assumption.
Qed.

End Balanced.

(* ================================================================= *)
(** ** The scan and the fold of [solve] *)

Section Solve.

Variable ops : list ascii.

Lemma scan_app (s t : string) :
  forall st, scan ops st (s ++ t) = scan ops (scan ops st s) t.
Proof. induction s as [|a s IH]; simpl; auto. Qed.

Lemma append_assoc (s t u : string) : (s ++ t) ++ u = s ++ t ++ u.
Proof. induction s as [|a s IH]; simpl; auto. now rewrite IH. Qed.

Lemma append_empty (s : string) : s ++ "" = s.
Proof. induction s as [|a s IH]; simpl; auto. now rewrite IH. Qed.

(** Scanning a token only extends the buffer. *)
Lemma scan_token (t : string) :
  noneIn ops t = true ->
  forall ns os buf,
    scan ops (mkScan ns os buf) t = mkScan ns os (buf ++ t).
Proof.
  unfold noneIn. induction t as [|a t IH]; simpl; intros H ns os buf.
  - now rewrite append_empty.
  - apply andb_prop in H as [Ha Ht]. unfold scanStep; simpl.
    rewrite Ha. rewrite (IH Ht). now rewrite append_assoc.
Qed.

Lemma scan_tokens (rest : list (ascii * string)) :
  forall t0 ns os buf,
    wellTokenised ops t0 rest ->
    scan ops (mkScan ns os buf) (joinTokens t0 rest) =
    mkScan (ns ++ scannedNums (buf ++ t0) rest)
           (os ++ map fst rest)
           (lastToken (buf ++ t0) rest).
Proof.
  induction rest as [|[o t] rest IH]; intros t0 ns os buf [H0 Hrest]; simpl.
  - rewrite (scan_token _ H0). now rewrite !app_nil_r.
  - inversion Hrest as [|? ? [Ho Ht] Hrest']; subst. simpl in Ho, Ht.
    rewrite scan_app, (scan_token _ H0). simpl.
    unfold scanStep; simpl. rewrite Ho; simpl.
    rewrite (IH t _ _ "" (conj Ht Hrest')). simpl.
    now rewrite <- !app_assoc.
Qed.

Lemma scannedNums_last (rest : list (ascii * string)) :
  forall t0,
    (scannedNums t0 rest ++ [parseFloat (lastToken t0 rest)])%list =
    parseFloat t0 :: map (fun ot => parseFloat (snd ot)) rest.
Proof.
  induction rest as [|[o t] rest IH]; intros t0; simpl; auto.
  now rewrite IH.
Qed.

Variable operateCallback : number -> number -> ascii -> completion number.

(** The index loop reads the operands and operators in order. *)
Lemma foldLoop_fold (rest : list (ascii * string)) :
  forall pn po i acc,
    List.length pn = i -> List.length po = i - 1 -> 0 < i ->
    foldLoop operateCallback
      (pn ++ map (fun ot => parseFloat (snd ot)) rest)
      (po ++ map fst rest) (List.length rest) i acc =
    foldLeftM (fun a ot => operateCallback a (parseFloat (snd ot)) (fst ot))
              rest acc.
Proof.
  induction rest as [|[o t] rest IH]; intros pn po i acc Hn Ho Hi; simpl; auto.
  rewrite app_nth2 by lia. rewrite app_nth2 by lia.
  replace (i - List.length pn) with 0 by lia.
  replace (i - 1 - List.length po) with 0 by lia. simpl.
  destruct (operateCallback acc (parseFloat t) o) as [r|e]; simpl; auto.
  specialize (IH (pn ++ [parseFloat t])%list (po ++ [o])%list (S i) r).
  rewrite <- !app_assoc in IH. simpl in IH. apply IH.
  - rewrite length_app; simpl; lia.
  - rewrite length_app; simpl; lia.
  - lia.
Qed.

(** [solve] on a tokenised expression whose last token passes the check. *)
Lemma solve_tokens (t0 : string) (rest : list (ascii * string)) :
  wellTokenised ops t0 rest ->
  hasInvalidChar (lastToken t0 rest) = false ->
  solve (VStr (joinTokens t0 rest)) ops operateCallback =
  (r <- foldLeftM
          (fun a ot => operateCallback a (parseFloat (snd ot)) (fst ot))
          rest (parseFloat t0) ;;
   Normal (VNum r)).
Proof.
  intros Hw Hlast. unfold solve, scanInit. simpl toString.
  rewrite (scan_tokens rest t0 [] [] "" Hw). simpl.
  rewrite Hlast, scannedNums_last. simpl.
  pose proof (foldLoop_fold rest [parseFloat t0] [] 1 (parseFloat t0)
                eq_refl eq_refl Nat.lt_0_1) as Hf.
  simpl in Hf.
  rewrite length_map, Nat.sub_0_r.
  now rewrite Hf.
Qed.

(** [solve] echoes its text when the trailing buffer fails the check. *)
Lemma solve_echo (s : string) :
  hasInvalidChar (numString (scan ops scanInit s)) = true ->
  solve (VStr s) ops operateCallback = Normal (VStr s).
Proof. intros H. unfold solve. simpl toString. now rewrite H. Qed.

End Solve.

(* ================================================================= *)
(** ** Errors *)

Section Errors.

Lemma bind_assoc {A B C : Type} (c : completion A)
  (f : A -> completion B) (g : B -> completion C) :
  (y <- (x <- c ;; f x) ;; g y) = (x <- c ;; y <- f x ;; g y).
Proof. now destruct c. Qed.

Lemma operateMD_throw (a b : number) (op : ascii) (e : exn) :
  operateMD a b op = Throw e ->
  e = divisionByZero /\ op <> times /\ Number.is_zero b = true.
Proof.
  unfold operateMD. destruct (Ascii.eqb op times) eqn:E; [discriminate|].
  destruct (Number.is_zero b); [|discriminate].
  intros [= <-]. repeat split. intros ->.
  now rewrite Ascii.eqb_refl in E.
Qed.

Lemma foldLoop_MD_throw (nums : list number) (os : list ascii) (e : exn) :
  forall steps i acc,
    foldLoop operateMD nums os steps i acc = Throw e -> e = divisionByZero.
Proof.
  induction steps as [|steps IH]; simpl; intros i acc H; [discriminate|].
  destruct (operateMD acc _ _) as [r|e'] eqn:E; simpl in H.
  - eapply IH; eauto.
  - injection H as <-. now apply operateMD_throw in E.
Qed.

Lemma foldLoop_AS_normal (nums : list number) (os : list ascii) :
  forall steps i acc,
    exists r, foldLoop operateAS nums os steps i acc = Normal r.
Proof.
  induction steps as [|steps IH]; simpl; intros i acc; eauto.
Qed.

Lemma computeMD_throw (v : value) (e : exn) :
  computeMD v = Throw e -> e = divisionByZero.
Proof.
  unfold computeMD, solve. destruct (hasInvalidChar _); [discriminate|].
  destruct (foldLoop _ _ _ _ _ _) as [r|e'] eqn:E; simpl; [discriminate|].
  intros [= <-]. eapply foldLoop_MD_throw; eauto.
Qed.

Lemma computeAS_normal (v : value) : exists r, computeAS v = Normal r.
Proof.
  unfold computeAS, solve. destruct (hasInvalidChar _); eauto.
  match goal with
  | |- context [foldLoop operateAS ?n ?o ?s ?i ?a] =>
      destruct (foldLoop_AS_normal n o s i a) as [r ->]
  end.
  simpl; eauto.
Qed.

Lemma levels_throw (s : string) (e : exn) :
  levels s = Throw e -> e = divisionByZero.
Proof.
  unfold levels. destruct (computeMD (VStr s)) as [v|e'] eqn:E; simpl.
  - destruct (computeAS_normal v) as [r ->]. discriminate.
  - intros [= <-]. eapply computeMD_throw; eauto.
Qed.

Lemma bracketLoop_throw :
  forall fuel expr e,
    bracketLoop fuel expr = Some (Throw e) -> e = divisionByZero.
Proof.
  induction fuel as [|fuel IH]; intros expr e H; [discriminate|].
  simpl in H. destruct (__findInnermostBrackets expr) as [[o c]|];
    [|discriminate].
  destruct (bracketLoop fuel (slice expr (o + 1) c)) as [[flat|e']|] eqn:E1;
    [| |discriminate].
  - destruct (levels flat) as [v|e'] eqn:El.
    + eapply IH; eauto.
    + injection H as <-. eapply levels_throw; eauto.
  - injection H as <-. eapply IH; eauto.
Qed.

Lemma evaluateExpression_throw (expr : string) (e : exn) :
  evaluateExpression expr = Throw e -> e = divisionByZero.
Proof.
  rewrite evaluateExpression_resolve.
  destruct (resolveBrackets expr) as [flat|e'] eqn:E; simpl.
  - apply levels_throw.
  - intros [= <-]. apply (bracketLoop_throw (fuelFor expr) expr).
    rewrite <- E. apply bracketLoop_enough. unfold fuelFor; lia.
Qed.

Lemma evaluateExpression_step (expr : string) (o c : nat) :
  __findInnermostBrackets expr = Some (o, c) ->
  evaluateExpression expr =
  (v <- evaluateExpression (slice expr (o + 1) c) ;;
   evaluateExpression
     (slice expr 0 o ++ toString v ++ sliceFrom expr (c + 1))).
Proof.
  intros H. rewrite evaluateExpression_resolve.
  rewrite (resolveBrackets_some _ _ _ H), bind_assoc.
  destruct (evaluateExpression (slice expr (o + 1) c)); simpl; auto.
  now rewrite evaluateExpression_resolve.
Qed.

Lemma compute_evaluate (this : Calculator) (log : console) (expr : string) :
  compute this log expr =
  match evaluateExpression expr with
  | Normal v => (v, log)
  | Throw error =>
      (VStr (exnToString error),
       (log ++ [("Error whilst calculating result: "
                   ++ exnToString error)%string])%list)
  end.
Proof.
  unfold compute, computeFuel.
  rewrite (evaluateExpressionFuel_enough (fuelFor expr))
    by (unfold fuelFor; lia).
  now destruct (evaluateExpression expr).
Qed.

End Errors.

(* ================================================================= *)
(** ** NaN through the addition/subtraction level *)

Section NaNFacts.



Lemma operateAS_NaN_l (b : number) (op : ascii) :
  operateAS Number.NaN b op = Normal Number.NaN.
Proof. unfold operateAS. now destruct (Ascii.eqb op plus). Qed.


Lemma foldLoop_AS_from_NaN (nums : list number) (os : list ascii) :
  forall steps i,
    foldLoop operateAS nums os steps i Number.NaN = Normal Number.NaN.
Proof.
  induction steps as [|steps IH]; intros i; cbn [foldLoop]; auto.
  rewrite operateAS_NaN_l. cbn [bind]. apply IH.
Qed.


Lemma scan_nums_prefix (ops : list ascii) (s : string) :
  forall st, exists l,
    detectedNums (scan ops st s) = (detectedNums st ++ l)%list.
Proof.
  induction s as [|a s IH]; simpl; intros st.
  - exists []. now rewrite app_nil_r.
  - destruct (IH (scanStep ops st a)) as [l Hl]. rewrite Hl.
    unfold scanStep. destruct (negb (includes ops a)); simpl; eauto.
    rewrite <- app_assoc. eauto.
Qed.

Lemma hasInvalidChar_app (s t : string) :
  hasInvalidChar (s ++ t) = hasInvalidChar s || hasInvalidChar t.
Proof.
  unfold hasInvalidChar. rewrite forallb_string_app. apply negb_andb.
Qed.

Lemma lowOperator_invalid (op : ascii) (s : string) :
  isLowOperator op = true -> hasInvalidChar (String op s) = true.
Proof.
  unfold isLowOperator, includes. simpl. rewrite orb_false_r.
  intros H. apply orb_prop in H as [H|H]; apply Ascii.eqb_eq in H; subst;
    reflexivity.
Qed.

Lemma lowOperator_not_high (op : ascii) :
  isLowOperator op = true -> includes [times; slash] op = false.
Proof.
  unfold isLowOperator, includes. simpl. rewrite orb_false_r.
  intros H. apply orb_prop in H as [H|H]; apply Ascii.eqb_eq in H; subst;
    reflexivity.
Qed.





(** The addition/subtraction pass on an expression that begins with
    [+] or [-]: the first operand is the empty buffer, NaN. *)
Lemma computeAS_leading_low (rest : string) (op : ascii) :
  isLowOperator op = true ->
  hasInvalidChar
    (numString (scan [plus; minus] scanInit (String op rest))) = false ->
  computeAS (VStr (String op rest)) = Normal (VNum Number.NaN).
Proof.
  intros Hop Hvalid. unfold computeAS, solve. simpl toString.
  rewrite Hvalid. simpl scan.
  assert (Hstep : scanStep [plus; minus] scanInit op
                  = mkScan [Number.NaN] [op] "").
  { unfold scanStep.
    change (includes [plus; minus] op) with (isLowOperator op).
    now rewrite Hop. }
  rewrite Hstep.
  destruct (scan_nums_prefix [plus; minus] rest
              (mkScan [Number.NaN] [op] "")) as [l Hl].
  simpl in Hl. rewrite Hl. cbn [app nth].
  now rewrite foldLoop_AS_from_NaN.
Qed.

End NaNFacts.

(* ================================================================= *)
(** ** The properties of the evaluator *)

(** C1. On a flat expression that mixes the two levels the passes do not
    give multiplication precedence: the multiplication/division pass reads
    ["2+2"] as the operand 2, so compute('2+2*5') is 10 where precedence
    gives 12, and compute('2*2+5') is 7 where precedence gives 9. *)
Theorem compute_mixed_levels (this : Calculator) (log : console) :
  compute this log "2+2*5" = (VNum (Number.of_Z 10), log) /\
  compute this log "2*2+5" = (VNum (Number.of_Z 7), log).
Proof. split; vm_compute; reflexivity. Qed.

(** The same defect keeps a division from being evaluated as one. *)
Example mixed_levels_hide_division (this : Calculator) (log : console) :
  compute this log "5/0+1" = (VNum (Number.of_Z 6), log).
Proof. vm_compute; reflexivity. Qed.

(** C2. compute returns the exact value on the concrete scenarios:
    '2+2' is 4, '2-1' is 1, '3*4' is 12, '10/2' is 5, '2+(2*5)' is 12,
    '2*(2+5)' is 14 and '(2+1)*(4-3)' is 3. *)
Theorem compute_scenarios (this : Calculator) (log : console) :
  compute this log "2+2" = (VNum (Number.of_Z 4), log) /\
  compute this log "2-1" = (VNum (Number.of_Z 1), log) /\
  compute this log "3*4" = (VNum (Number.of_Z 12), log) /\
  compute this log "10/2" = (VNum (Number.of_Z 5), log) /\
  compute this log "2+(2*5)" = (VNum (Number.of_Z 12), log) /\
  compute this log "2*(2+5)" = (VNum (Number.of_Z 14), log) /\
  compute this log "(2+1)*(4-3)" = (VNum (Number.of_Z 3), log).
Proof. repeat split; vm_compute; reflexivity. Qed.

(** C3. On an expression whose operators all belong to the level being
    solved (tokens separated by operators of the level, the last token
    made of digits and points), solve is the left-to-right fold of the
    callback over the parsed tokens, starting from the first: operators
    of one level associate to the left.  In particular compute('10-2-3')
    is 5 and compute('20/2/5') is 2. *)
Theorem solve_left_to_right (this : Calculator) (log : console) :
  (forall ops operateCallback t0 rest,
      wellTokenised ops t0 rest ->
      hasInvalidChar (lastToken t0 rest) = false ->
      solve (VStr (joinTokens t0 rest)) ops operateCallback =
      (r <- foldLeftM
              (fun a ot => operateCallback a (parseFloat (snd ot)) (fst ot))
              rest (parseFloat t0) ;;
       Normal (VNum r))) /\
  compute this log "10-2-3" = (VNum (Number.of_Z 5), log) /\
  compute this log "20/2/5" = (VNum (Number.of_Z 2), log).
Proof.
  split; [intros; now apply solve_tokens|].
  split; vm_compute; reflexivity.
Qed.

Lemma solve_left_to_right_witness :
  wellTokenised [plus; minus] "10" [(minus, "2"); (minus, "3")] /\
  hasInvalidChar (lastToken "10" [(minus, "2"); (minus, "3")]) = false /\
  solve (VStr "10-2-3") [plus; minus] operateAS =
  Normal (VNum (Number.of_Z 5)).
Proof.
  assert (Hw : wellTokenised [plus; minus] "10" [(minus, "2"); (minus, "3")])
    by (split; [reflexivity | repeat constructor]).
  split; [exact Hw|]. split; [reflexivity|].
  change "10-2-3" with (joinTokens "10" [(minus, "2"); (minus, "3")]).
  rewrite (proj1 (solve_left_to_right new_Calculator [])
             [plus; minus] operateAS "10" [(minus, "2"); (minus, "3")]
             Hw eq_refl).
  vm_compute. reflexivity.
Defined.

(** C4. When a bracket pair is found, the text between the pair holds no
    bracket (the pair is innermost) and evaluateExpression is the
    evaluation of the expression in which the bracketed substring is
    replaced by the text of its recursively computed value; the loop stops
    on an expression in which no pair is found, which for a balanced
    expression holds no bracket at all, and the two level passes run on
    it.  In particular compute('12*(12-(6+6))') is 0 and
    compute('12*(12-(6))') is 72. *)
Theorem evaluateExpression_innermost_first (this : Calculator) (log : console)
  (expr : string) :
  (forall o c,
      __findInnermostBrackets expr = Some (o, c) ->
      noBrackets (slice expr (o + 1) c) = true /\
      evaluateExpression expr =
      (v <- evaluateExpression (slice expr (o + 1) c) ;;
       evaluateExpression
         (slice expr 0 o ++ toString v ++ sliceFrom expr (c + 1)))) /\
  (forall flat,
      resolveBrackets expr = Normal flat ->
      __findInnermostBrackets flat = None /\
      (balanced expr = true -> noBrackets flat = true) /\
      evaluateExpression expr = levels flat) /\
  compute this log "12*(12-(6+6))" = (VNum (Number.of_Z 0), log) /\
  compute this log "12*(12-(6))" = (VNum (Number.of_Z 72), log).
Proof.
  split.
  { intros o c H. split; [now apply inner_noBrackets|].
    now apply evaluateExpression_step. }
  split.
  { intros flat H. destruct (resolveBrackets_flat _ _ H) as [Hn Hb].
    repeat split; auto. now rewrite evaluateExpression_resolve, H. }
  split; vm_compute; reflexivity.
Qed.

Lemma evaluateExpression_innermost_first_witness :
  __findInnermostBrackets "12*(12-(6+6))" = Some (7, 11) /\
  noBrackets (slice "12*(12-(6+6))" (7 + 1) 11) = true /\
  evaluateExpression "12*(12-(6+6))" =
  (v <- evaluateExpression "6+6" ;;
   evaluateExpression ("12*(12-" ++ toString v ++ ")")).
Proof.
  split; [reflexivity|].
  exact (proj1 (evaluateExpression_innermost_first new_Calculator []
                  "12*(12-(6+6))") 7 11 eq_refl).
Defined.

(** C5 (evaluated on the code). A division whose right operand is zero
    does not always raise the error: in '5/0+1' the multiplication/division
    pass echoes the text, the addition/subtraction pass reads the token
    '5/0' as 5, and evaluateExpression returns 6 without throwing, so that
    compute returns 6 and logs nothing.  What does hold: the callback of
    the multiplication/division pass throws exactly on a division by a
    zero right operand, the other operators never throw; on a division
    token pair the pass throws exactly when the right token parses to
    zero; a throw of the pass on the expression left without bracket
    pair, or inside a bracket group, is the throw of evaluateExpression;
    nothing else is thrown, and compute turns the throw into the error
    text and logs it: evaluateExpression throws on '5/0' and on
    '2+(5/0)', and compute returns the text. *)
Theorem division_by_zero (this : Calculator) (log : console) :
  (evaluateExpression "5/0+1" = Normal (VNum (Number.of_Z 6)) /\
   compute this log "5/0+1" = (VNum (Number.of_Z 6), log)) /\
  (forall a b op e,
      operateMD a b op = Throw e <->
      e = divisionByZero /\ op <> times /\ Number.is_zero b = true) /\
  (forall a b, operateMD a b times = Normal (Number.mul a b)) /\
  (forall a b op, exists r, operateAS a b op = Normal r) /\
  (forall t0 t1,
      noneIn [times; slash] t0 = true -> noneIn [times; slash] t1 = true ->
      hasInvalidChar t1 = false ->
      (computeMD (VStr (t0 ++ String slash t1)) = Throw divisionByZero <->
       Number.is_zero (parseFloat t1) = true)) /\
  (forall expr e,
      __findInnermostBrackets expr = None ->
      computeMD (VStr expr) = Throw e ->
      evaluateExpression expr = Throw e) /\
  (forall expr o c e,
      __findInnermostBrackets expr = Some (o, c) ->
      evaluateExpression (slice expr (o + 1) c) = Throw e ->
      evaluateExpression expr = Throw e) /\
  (forall expr e,
      evaluateExpression expr = Throw e ->
      e = divisionByZero /\
      compute this log expr = (VStr errorText, (log ++ [errorLine])%list)) /\
  (forall expr v,
      evaluateExpression expr = Normal v -> compute this log expr = (v, log)) /\
  evaluateExpression "5/0" = Throw divisionByZero /\
  evaluateExpression "2+(5/0)" = Throw divisionByZero /\
  compute this log "5/0" = (VStr errorText, (log ++ [errorLine])%list) /\
  compute this log "2+(5/0)" = (VStr errorText, (log ++ [errorLine])%list).
Proof.
  split; [split; vm_compute; reflexivity|].
  split.
  { intros a b op e. split; [apply operateMD_throw|].
    intros (-> & Hop & Hz). unfold operateMD. rewrite Hz.
    destruct (Ascii.eqb op times) eqn:E; auto.
    apply Ascii.eqb_eq in E. contradiction. }
  split; [reflexivity|].
  split; [intros; unfold operateAS; eauto|].
  split.
  { intros t0 t1 H0 H1 Hv. unfold computeMD.
    change (t0 ++ String slash t1) with (joinTokens t0 [(slash, t1)]).
    rewrite solve_tokens;
      [|split; [assumption | repeat constructor; assumption] | assumption].
    simpl. unfold operateMD. simpl.
    destruct (Number.is_zero (parseFloat t1)); simpl; split; auto;
      discriminate. }
  split.
  { intros expr e Hnone Hmd. rewrite evaluateExpression_resolve.
    rewrite (resolveBrackets_none _ Hnone). cbn [bind]. unfold levels.
    now rewrite Hmd. }
  split.
  { intros expr o c e H He. rewrite (evaluateExpression_step _ _ _ H), He.
    reflexivity. }
  split.
  { intros expr e He. pose proof (evaluateExpression_throw _ _ He) as ->.
    split; auto. now rewrite compute_evaluate, He. }
  split.
  { intros expr v He. now rewrite compute_evaluate, He. }
  repeat split; vm_compute; reflexivity.
Qed.

Lemma division_by_zero_witness :
  __findInnermostBrackets "8/0" = None /\
  computeMD (VStr "8/0") = Throw divisionByZero /\
  evaluateExpression "8/0" = Throw divisionByZero /\
  compute new_Calculator [] "8/0" = (VStr errorText, [errorLine]).
Proof.
  assert (Hmd : computeMD (VStr "8/0") = Throw divisionByZero).
  { apply (proj1 (proj2 (proj2 (proj2 (proj2
             (division_by_zero new_Calculator [])))))
             "8" "0" eq_refl eq_refl eq_refl).
    reflexivity. }
  assert (He : evaluateExpression "8/0" = Throw divisionByZero).
  { apply (proj1 (proj2 (proj2 (proj2 (proj2 (proj2
             (division_by_zero new_Calculator []))))))
             "8/0" divisionByZero eq_refl Hmd). }
  split; [reflexivity|]. split; [exact Hmd|]. split; [exact He|].
  exact (proj2 (proj1 (proj2 (proj2 (proj2 (proj2 (proj2 (proj2 (proj2
           (division_by_zero new_Calculator [])))))))) "8/0" divisionByZero He)).
Defined.

(** C6. Whenever the buffer left after the scan of a level holds a
    character other than a digit or a point, solve returns the expression
    it was given, unchanged, as a string: it neither computes a number nor
    throws.  On a tokenised expression that buffer is the last token.  An
    expression without a bracket pair whose buffer fails at both levels is
    returned by compute; in particular compute('2&3') is '2&3'. *)
Theorem solve_echoes_malformed (this : Calculator) (log : console) :
  (forall s ops operateCallback,
      hasInvalidChar (numString (scan ops scanInit s)) = true ->
      solve (VStr s) ops operateCallback = Normal (VStr s)) /\
  (forall ops operateCallback t0 rest,
      wellTokenised ops t0 rest ->
      hasInvalidChar (lastToken t0 rest) = true ->
      solve (VStr (joinTokens t0 rest)) ops operateCallback =
      Normal (VStr (joinTokens t0 rest))) /\
  (forall expr,
      __findInnermostBrackets expr = None ->
      hasInvalidChar (numString (scan [times; slash] scanInit expr)) = true ->
      hasInvalidChar (numString (scan [plus; minus] scanInit expr)) = true ->
      compute this log expr = (VStr expr, log)) /\
  compute this log "2&3" = (VStr "2&3", log).
Proof.
  split; [intros; now apply solve_echo|].
  split.
  { intros ops cb t0 rest Hw Hlast. apply solve_echo. unfold scanInit.
    rewrite (scan_tokens ops rest t0 [] [] "" Hw). exact Hlast. }
  split; [|vm_compute; reflexivity].
  intros expr Hnone Hmd Has.
  rewrite compute_evaluate, evaluateExpression_resolve.
  rewrite (resolveBrackets_none _ Hnone). simpl. unfold levels, computeMD.
  rewrite (solve_echo _ _ _ Hmd). simpl. unfold computeAS.
  now rewrite (solve_echo _ _ _ Has).
Qed.

Lemma solve_echoes_malformed_witness :
  hasInvalidChar (numString (scan [plus; minus] scanInit "2&3")) = true /\
  solve (VStr "2&3") [plus; minus] operateAS = Normal (VStr "2&3").
Proof.
  split; [reflexivity|].
  exact (proj1 (solve_echoes_malformed new_Calculator [])
           "2&3" [plus; minus] operateAS eq_refl).
Defined.

(** C7. [__findInnermostBrackets] returns the first [(] met in its backward
    scan that has a [)] after it, paired with the first [)] after it: the
    open index is below the close index, [(] and [)] stand there, no [)]
    lies between them, and no [(] further right has a [)] after it.  It
    returns none exactly when no [(] of the expression has a [)] after it. *)
Theorem findInnermostBrackets_spec (expr : string) :
  (forall o c,
      __findInnermostBrackets expr = Some (o, c) ->
      o < c /\ c < length expr /\
      charAt expr o = Some openParen /\ charAt expr c = Some closeParen /\
      (forall j, o <= j -> j < c -> charAt expr j <> Some closeParen) /\
      (forall j k, o < j -> charAt expr j = Some openParen -> j < k ->
                   charAt expr k <> Some closeParen)) /\
  (__findInnermostBrackets expr = None <->
   (forall j k, charAt expr j = Some openParen -> j < k ->
                charAt expr k <> Some closeParen)).
Proof.
  split; [intros o c; apply findInnermostBrackets_some|].
  split; [apply findInnermostBrackets_none|].
  intros Hno. destruct (__findInnermostBrackets expr) as [[o c]|] eqn:E; auto.
  destruct (findInnermostBrackets_some _ _ _ E) as (Hlt & _ & Ho & Hc & _).
  now destruct (Hno o c Ho Hlt).
Qed.

Lemma findInnermostBrackets_spec_witness :
  __findInnermostBrackets "(2+1)*(4-3)" = Some (6, 10) /\
  6 < 10 /\ 10 < length "(2+1)*(4-3)" /\
  charAt "(2+1)*(4-3)" 6 = Some openParen /\
  charAt "(2+1)*(4-3)" 10 = Some closeParen.
Proof.
  split; [reflexivity|].
  destruct (proj1 (findInnermostBrackets_spec "(2+1)*(4-3)") 6 10 eq_refl)
    as (H1 & H2 & H3 & H4 & _).
  repeat split; assumption.
Defined.

(** C8 (as stated, refuted). The string compute returns need be neither
    the original expression nor an error message: on '2*' the
    multiplication/division pass computes NaN and the addition/subtraction
    pass echoes its text, so compute('2*') is the string 'NaN' although
    nothing was thrown. *)
Lemma compute_string_neither_echo_nor_error :
  compute new_Calculator [] "2*" = (VStr "NaN", []) /\
  evaluateExpression "2*" = Normal (VStr "NaN") /\
  "NaN" <> "2*" /\ "NaN" <> errorText.
Proof. repeat split; try discriminate. Qed.

(** C8 (amended). compute is total and never throws: for every input
    and every console it returns, for every fuel above the number of
    opening brackets, one and the same result, which is a number, or the
    text of what the multiplication/division pass returned for the
    expression left by the bracket loop (the original expression when no
    bracket pair is found and that pass echoes it), or the error text of
    a caught division by zero. *)
Theorem compute_total (this : Calculator) (log : console) (expr : string) :
  exists v log',
    compute this log expr = (v, log') /\
    (forall fuel,
        countChar openParen expr < fuel ->
        computeFuel this fuel log expr = Some (v, log')) /\
    ((exists x, v = VNum x) \/
     (exists flat e,
         resolveBrackets expr = Normal flat /\
         computeMD (VStr flat) = Normal e /\ v = VStr (toString e)) \/
     (evaluateExpression expr = Throw divisionByZero /\ v = VStr errorText)).
Proof.
  destruct (compute this log expr) as [v log'] eqn:E.
  exists v, log'. split; [reflexivity|]. split.
  { intros fuel Hlt. now rewrite (computeFuel_enough _ _ _ _ Hlt), E. }
  rewrite compute_evaluate in E.
  destruct (evaluateExpression expr) as [r|e] eqn:Ee.
  - injection E as <- <-. rewrite evaluateExpression_resolve in Ee.
    destruct (resolveBrackets expr) as [flat|e]; [|discriminate].
    simpl in Ee. unfold levels in Ee.
    destruct (computeMD (VStr flat)) as [m|e] eqn:Em; [|discriminate].
    simpl in Ee. destruct (solve_result _ _ _ _ Ee) as [Hn| ->]; auto.
    right; left. exists flat, m. auto.
  - pose proof (evaluateExpression_throw _ _ Ee) as ->.
    injection E as <- <-. right; right. auto.
Qed.

Lemma compute_total_witness :
  countChar openParen "2*(2+5)" < 5 /\
  computeFuel new_Calculator 5 [] "2*(2+5)" = Some (VNum (Number.of_Z 14), []).
Proof.
  split; [vm_compute; lia|].
  destruct (compute_total new_Calculator [] "2*(2+5)")
    as (v & log' & Hc & Hf & _).
  rewrite (Hf 5) by (vm_compute; lia).
  rewrite <- Hc. vm_compute. reflexivity.
Defined.

(** C9. compute is deterministic and stateless: its value depends on the
    expression alone, not on the calculator instance, on what the console
    holds, or on the fuel given; in a run of calls every value is the one
    compute gives for that expression on its own, so evaluating an
    expression twice, in any order relative to other calls, yields
    identical output. *)
Theorem compute_stateless :
  (forall this1 this2 log1 log2 expr,
      fst (compute this1 log1 expr) = fst (compute this2 log2 expr)) /\
  (forall this1 this2 log1 log2 fuel1 fuel2 expr,
      countChar openParen expr < fuel1 ->
      countChar openParen expr < fuel2 ->
      option_map fst (computeFuel this1 fuel1 log1 expr) =
      option_map fst (computeFuel this2 fuel2 log2 expr)) /\
  (forall this log exprs,
      fst (session this log exprs) =
      map (fun e => fst (compute new_Calculator [] e)) exprs).
Proof.
  assert (H : forall this1 this2 log1 log2 expr,
             fst (compute this1 log1 expr) = fst (compute this2 log2 expr)).
  { intros. rewrite !compute_evaluate.
    now destruct (evaluateExpression expr). }
  split; [exact H|]. split.
  - intros this1 this2 log1 log2 fuel1 fuel2 expr H1 H2.
    rewrite (computeFuel_enough _ _ _ _ H1), (computeFuel_enough _ _ _ _ H2).
    simpl. f_equal. apply H.
  - intros this log exprs. revert log.
    induction exprs as [|e rest IH]; intros log; simpl; auto.
    destruct (compute this log e) as [v log'] eqn:E.
    specialize (IH log'). destruct (session this log' rest) as [vs log''].
    simpl in *. rewrite IH. f_equal.
    change v with (fst (v, log')). rewrite <- E. apply H.
Qed.

Lemma compute_stateless_witness :
  countChar openParen "(2+1)*(4-3)" < 3 /\
  countChar openParen "(2+1)*(4-3)" < 7 /\
  option_map fst (computeFuel new_Calculator 3 [] "(2+1)*(4-3)") =
  option_map fst (computeFuel new_Calculator 7 [errorLine] "(2+1)*(4-3)").
Proof.
  assert (H1 : countChar openParen "(2+1)*(4-3)" < 3) by (vm_compute; lia).
  assert (H2 : countChar openParen "(2+1)*(4-3)" < 7) by (vm_compute; lia).
  split; [exact H1|]. split; [exact H2|].
  exact (proj1 (proj2 compute_stateless)
           new_Calculator new_Calculator [] [errorLine] 3 7 _ H1 H2).
Defined.

(* ================================================================= *)
(** ** Further properties: the scan of [solve] *)

Section Tokens.

Variable ops : list ascii.

Lemma tokenise_join (s : string) :
  joinTokens (fst (tokenise ops s)) (snd (tokenise ops s)) = s.
Proof.
  induction s as [|c s IH]; simpl; auto.
  destruct (tokenise ops s) as [t0 rest]. simpl in IH.
  destruct (includes ops c); simpl; [now rewrite IH|].
  destruct rest as [|[o t] rest]; simpl in *; now rewrite IH.
Qed.

Lemma tokenise_well (s : string) :
  wellTokenised ops (fst (tokenise ops s)) (snd (tokenise ops s)).
Proof.
  unfold wellTokenised, noneIn.
  induction s as [|c s IH]; simpl; [split; auto|].
  destruct (tokenise ops s) as [t0 rest]. simpl in IH. destruct IH as [H0 Hr].
  destruct (includes ops c) eqn:E; simpl.
  - split; auto.
  - rewrite E. simpl. split; auto.
Qed.

Lemma join_tokenise (rest : list (ascii * string)) :
  forall t0,
    wellTokenised ops t0 rest ->
    tokenise ops (joinTokens t0 rest) = (t0, rest).
Proof.
  assert (Happ : forall t u,
             noneIn ops t = true ->
             tokenise ops (t ++ u) =
             let '(u0, r) := tokenise ops u in (t ++ u0, r)).
  { unfold noneIn. induction t as [|c t IH]; simpl; intros u H.
    - now destruct (tokenise ops u).
    - apply andb_prop in H as [Hc Ht]. rewrite (IH u Ht).
      destruct (tokenise ops u) as [u0 r].
      apply negb_true_iff in Hc. now rewrite Hc. }
  induction rest as [|[o t] rest IH]; intros t0 [H0 Hr]; simpl.
  - rewrite <- (append_empty t0) at 1. rewrite (Happ _ _ H0). simpl.
    now rewrite append_empty.
  - inversion Hr as [|? ? [Ho Ht] Hr']; subst. simpl in Ho, Ht.
    rewrite (Happ _ _ H0). simpl.
    rewrite (IH t (conj Ht Hr')), Ho. now rewrite append_empty.
Qed.

(** Every text splits in exactly one way into the tokens of a level. *)
Lemma tokenise_roundtrip (s : string) :
  joinTokens (fst (tokenise ops s)) (snd (tokenise ops s)) = s /\
  wellTokenised ops (fst (tokenise ops s)) (snd (tokenise ops s)) /\
  (forall t0 rest,
      wellTokenised ops t0 rest -> joinTokens t0 rest = s ->
      tokenise ops s = (t0, rest)).
Proof.
  split; [apply tokenise_join|]. split; [apply tokenise_well|].
  intros t0 rest Hw <-. now apply join_tokenise.
Qed.

(** X1. What [solve] does on any text: it echoes the text when the token
    after the last operator holds a character outside digits and points,
    and otherwise folds the callback from left to right over the parsed
    tokens. *)
Theorem solve_spec (s : string)
  (operateCallback : number -> number -> ascii -> completion number) :
  solve (VStr s) ops operateCallback =
  let '(t0, rest) := tokenise ops s in
  if hasInvalidChar (lastToken t0 rest) then Normal (VStr s)
  else
    r <- foldLeftM
           (fun a ot => operateCallback a (parseFloat (snd ot)) (fst ot))
           rest (parseFloat t0) ;;
    Normal (VNum r).
Proof.
  pose proof (tokenise_join s) as Hj. pose proof (tokenise_well s) as Hw.
  destruct (tokenise ops s) as [t0 rest]. simpl in Hj, Hw.
  destruct (hasInvalidChar (lastToken t0 rest)) eqn:E.
  - apply solve_echo. rewrite <- Hj. unfold scanInit.
    now rewrite (scan_tokens ops rest t0 [] [] "" Hw).
  - rewrite <- Hj. now apply solve_tokens.
Qed.

Lemma scan_counts (s : string) :
  forall st,
    List.length (detectedNums (scan ops st s)) =
    List.length (detectedNums st) + countIn ops s /\
    List.length (operations (scan ops st s)) =
    List.length (operations st) + countIn ops s /\
    (Forall (fun o => includes ops o = true) (operations st) ->
     Forall (fun o => includes ops o = true) (operations (scan ops st s))).
Proof.
  induction s as [|c s IH]; intros st; simpl.
  - repeat split; auto.
  - destruct (IH (scanStep ops st c)) as (Hn & Ho & Hf).
    rewrite Hn, Ho. unfold scanStep in *.
    destruct (includes ops c) eqn:E; simpl in *.
    + rewrite !length_app. simpl. repeat split; try lia.
      intros H. apply Hf. apply Forall_app. split; auto.
    + repeat split; auto.
Qed.

(** X2. After the scan there is one operator per operator character of
    the text and as many pushed numbers, so that with the last number
    pushed every read [detectedNums[i]] and [operations[i - 1]] of the
    fold loop is in range, and every recorded operator is one of the
    level. *)
Theorem scan_in_range (s : string) :
  let st := scan ops scanInit s in
  let nums := (detectedNums st ++ [parseFloat (numString st)])%list in
  List.length (operations st) = countIn ops s /\
  List.length nums = S (countIn ops s) /\
  (forall i, 1 <= i -> i < List.length nums ->
             nth_error nums i <> None /\
             nth_error (operations st) (i - 1) <> None) /\
  Forall (fun o => includes ops o = true) (operations st).
Proof.
  cbv zeta. destruct (scan_counts s scanInit) as (Hn & Ho & Hf).
  simpl in Hn, Ho. rewrite length_app. simpl.
  repeat split; try lia.
  - apply nth_error_Some. rewrite length_app. simpl. lia.
  - apply nth_error_Some. lia.
  - apply Hf. constructor.
Qed.

End Tokens.

Lemma scan_in_range_witness :
  List.length (operations (scan [plus; minus] scanInit "10-2+3")) = 2 /\
  nth_error (operations (scan [plus; minus] scanInit "10-2+3")) (2 - 1)
  <> None.
Proof.
  destruct (scan_in_range [plus; minus] "10-2+3") as (H1 & H2 & H3 & _).
  split; [exact H1|].
  apply (H3 2); [lia | rewrite H2; vm_compute; lia].
Defined.

(* ================================================================= *)
(** ** Further properties: numbers that pass through their text *)

Section NumberRoundTrip.

Lemma plain_valid (s : string) :
  hasInvalidChar s = false <->
  forallb_string (fun c => isDigit c || Ascii.eqb c ".") s = true.
Proof. unfold hasInvalidChar. now rewrite negb_false_iff. Qed.

Lemma plain_no_operator (c : ascii) :
  isDigit c || Ascii.eqb c "." = true ->
  negb (includes [plus; minus] c) = true /\
  negb (includes [times; slash] c) = true.
Proof.
  destruct c as [[] [] [] [] [] [] [] []]; vm_compute; auto; discriminate.
Qed.

Lemma plain_noneIn_low (s : string) :
  hasInvalidChar s = false -> noneIn [plus; minus] s = true.
Proof.
  rewrite plain_valid. apply forallb_string_impl.
  intros c H. now apply plain_no_operator.
Qed.

Lemma plain_noneIn_high (s : string) :
  hasInvalidChar s = false -> noneIn [times; slash] s = true.
Proof.
  rewrite plain_valid. apply forallb_string_impl.
  intros c H. now apply plain_no_operator.
Qed.

Lemma digits_valid (s : string) :
  forallb_string isDigit s = true -> hasInvalidChar s = false.
Proof.
  intros H. apply plain_valid. revert H. apply forallb_string_impl.
  intros c ->. reflexivity.
Qed.

(** The text of a positive finite number is plain digits and points, or
    such a text followed by [e], a sign and the exponent digits. *)
Lemma finiteToString_shape (m : positive) (e : Z) :
  hasInvalidChar (finiteToString m e) = false \/
  exists body sg ds,
    finiteToString m e = body ++ String "e" (String sg ds) /\
    hasInvalidChar body = false /\ isLowOperator sg = true /\
    hasInvalidChar ds = false.
Proof.
  assert (Hd : forall z, hasInvalidChar (digitsOfZ z) = false)
    by (intros z; apply digits_valid, digitsOfZ_digits).
  assert (Hsuffix : forall z, exists sg,
             exponentSuffix z = String "e" (String sg (digitsOfZ (Z.abs z)))
             /\ isLowOperator sg = true).
  { intros z. unfold exponentSuffix.
    destruct (z <? 0)%Z; [exists minus | exists plus]; split; reflexivity. }
  unfold finiteToString.
  destruct (shortest _ _ _ _ _ _) as [s0 k0].
  destruct (if (s0 =? 10 ^ k0)%Z then _ else _) as [[s k] n].
  destruct ((k <=? n)%Z && (n <=? 21)%Z).
  { left. rewrite hasInvalidChar_app, Hd. apply negb_false_iff.
    now apply forallb_string_repeat. }
  destruct ((0 <? n)%Z && (n <=? 21)%Z).
  { left. apply plain_valid. rewrite !forallb_string_app.
    rewrite forallb_string_take, forallb_string_drop;
      try (apply plain_valid, Hd). reflexivity. }
  destruct ((-6 <? n)%Z && (n <=? 0)%Z).
  { left. apply plain_valid. rewrite !forallb_string_app.
    rewrite forallb_string_repeat by reflexivity.
    now rewrite (proj1 (plain_valid _) (Hd s)). }
  right. destruct (Hsuffix (n - 1)%Z) as (sg & -> & Hsg).
  destruct (k =? 1)%Z.
  - exists (digitsOfZ s), sg, (digitsOfZ (Z.abs (n - 1))). auto.
  - exists (take 1 (digitsOfZ s) ++ "." ++ drop 1 (digitsOfZ s)), sg,
      (digitsOfZ (Z.abs (n - 1))).
    repeat split; auto.
    + now rewrite !append_assoc.
    + apply plain_valid. rewrite !forallb_string_app.
      rewrite forallb_string_take, forallb_string_drop;
        try (apply plain_valid, Hd). reflexivity.
Qed.

(** The scan of the addition/subtraction level over the text of a number
    ends on a buffer that passes the check. *)
Lemma finiteToString_trailing (m : positive) (e : Z) (st : scanState) :
  hasInvalidChar (numString st) = false ->
  hasInvalidChar
    (numString (scan [plus; minus] st (finiteToString m e))) = false.
Proof.
  intros Hst. destruct st as [ns os buf]. simpl in Hst.
  destruct (finiteToString_shape m e)
    as [Hp | (body & sg & ds & -> & Hb & Hsg & Hds)].
  - rewrite (scan_token _ _ (plain_noneIn_low _ Hp)). simpl.
    now rewrite hasInvalidChar_app, Hst, Hp.
  - rewrite scan_app. rewrite (scan_token _ _ (plain_noneIn_low _ Hb)).
    simpl scan. unfold scanStep at 2. simpl negb. unfold scanStep.
    change (includes [plus; minus] sg) with (isLowOperator sg).
    rewrite Hsg. simpl negb. cbv iota.
    rewrite (scan_token _ _ (plain_noneIn_low _ Hds)). simpl. exact Hds.
Qed.

Lemma computeAS_negative (m : positive) (e : Z) :
  computeAS (VNum (S754_finite true m e)) = Normal (VNum Number.NaN).
Proof.
  change (computeAS (VNum (S754_finite true m e)))
    with (computeAS (VStr (String minus (finiteToString m e)))).
  apply computeAS_leading_low; [reflexivity|].
  simpl scan. now apply finiteToString_trailing.
Qed.

Lemma computeAS_plain (s : string) :
  hasInvalidChar s = false ->
  computeAS (VStr s) = Normal (VNum (parseFloat s)).
Proof.
  intros Hp. change s with (joinTokens s []) at 1. unfold computeAS.
  rewrite solve_tokens; [reflexivity | | exact Hp].
  split; [now apply plain_noneIn_low | constructor].
Qed.

(** X3. A number handed to the addition/subtraction pass is read back
    from its text: NaN and the infinities come back as their text, a
    string; either zero comes back as +0; every negative finite number
    comes back as NaN, its sign being taken for a subtraction with an
    empty left operand; a positive number whose text is plain digits
    and points comes back as what parseFloat reads in that text. *)
Theorem computeAS_number (x : number) :
  match x with
  | S754_nan | S754_infinity _ =>
      computeAS (VNum x) = Normal (VStr (numberToString x))
  | S754_zero _ => computeAS (VNum x) = Normal (VNum (S754_zero false))
  | S754_finite true _ _ => computeAS (VNum x) = Normal (VNum Number.NaN)
  | S754_finite false m e =>
      hasInvalidChar (finiteToString m e) = false ->
      computeAS (VNum x) = Normal (VNum (parseFloat (finiteToString m e)))
  end.
Proof.
  destruct x as [s|s| |s m e]; try (destruct s; reflexivity);
    try reflexivity.
  destruct s; [apply computeAS_negative|].
  intros Hp. now apply (computeAS_plain (finiteToString m e)).
Qed.

Lemma computeAS_number_witness :
  hasInvalidChar (finiteToString 6755399441055744 (-49)) = false /\
  computeAS (VNum (Number.of_Z 12)) = Normal (VNum (Number.of_Z 12)).
Proof.
  split; [reflexivity|].
  change (Number.of_Z 12) with (S754_finite false 6755399441055744 (-49)) at 1.
  rewrite (computeAS_number (S754_finite false 6755399441055744 (-49)) eq_refl).
  reflexivity.
Defined.

(** X4. A positive number whose text is in exponent form (at least 1e21,
    or below 1e-6) does not come back from the addition/subtraction
    pass: the sign of its exponent is taken for an operator, and the
    result is what parseFloat reads before the sign plus or minus the
    exponent. *)
Theorem computeAS_exponent_text (m : positive) (e : Z)
  (body ds : string) (sg : ascii) :
  finiteToString m e = body ++ String "e" (String sg ds) ->
  hasInvalidChar body = false -> isLowOperator sg = true ->
  hasInvalidChar ds = false ->
  computeAS (VNum (S754_finite false m e)) =
  Normal (VNum (applyAS (parseFloat (body ++ "e")) (sg, ds))).
Proof.
  intros Htext Hb Hsg Hds.
  change (computeAS (VNum (S754_finite false m e)))
    with (solve (VStr (finiteToString m e)) [plus; minus] operateAS).
  rewrite Htext.
  replace (body ++ String "e" (String sg ds))
    with (joinTokens (body ++ "e") [(sg, ds)])
    by (simpl; now rewrite append_assoc).
  rewrite solve_tokens; [reflexivity | | exact Hds].
  split.
  - pose proof (plain_noneIn_low _ Hb) as Hn. unfold noneIn in *.
    rewrite forallb_string_app, Hn. reflexivity.
  - repeat constructor; [exact Hsg | now apply plain_noneIn_low].
Qed.

Lemma computeAS_exponent_text_witness :
  finiteToString 7629394531250000 17 = "1" ++ String "e" (String plus "21") /\
  computeAS (VNum (parseFloat "1000000000000000000000")) =
  Normal (VNum (Number.of_Z 22)).
Proof.
  split; [vm_compute; reflexivity|].
  change (parseFloat "1000000000000000000000")
    with (S754_finite false 7629394531250000 17).
  rewrite (computeAS_exponent_text 7629394531250000 17 "1" "21" plus
             eq_refl eq_refl eq_refl eq_refl).
  vm_compute. reflexivity.
Defined.

End NumberRoundTrip.

(* ================================================================= *)
(** ** Further properties: bracket groups *)

Section Groups.

Lemma charAt_app_l (s t : string) (i : nat) :
  i < length s -> charAt (s ++ t) i = charAt s i.
Proof.
  revert i; induction s as [|a s IH]; simpl; intros i H; [lia|].
  destruct i; auto. apply IH. lia.
Qed.

Lemma charAt_app_r (s t : string) (i : nat) :
  length s <= i -> charAt (s ++ t) i = charAt t (i - length s).
Proof.
  revert i; induction s as [|a s IH]; simpl; intros i H.
  - now rewrite Nat.sub_0_r.
  - destruct i; [lia|]. apply IH. lia.
Qed.

Lemma take_app_length (s t : string) : take (length s) (s ++ t) = s.
Proof. induction s as [|a s IH]; simpl; [now destruct t|]. now rewrite IH. Qed.

Lemma drop_app_length (s t : string) : drop (length s) (s ++ t) = t.
Proof. induction s as [|a s IH]; simpl; auto. Qed.

Lemma noBrackets_charAt (s : string) (i : nat) (c : ascii) :
  noBrackets s = true -> charAt s i = Some c -> isBracket c = false.
Proof.
  unfold noBrackets. rewrite forallb_string_charAt. intros H Hi.
  apply H in Hi. now apply negb_true_iff.
Qed.

(** The pair found in a flat text put between brackets is the pair
    put around it. *)
Lemma find_wrapped (inner : string) :
  noBrackets inner = true ->
  __findInnermostBrackets (String openParen (inner ++ String closeParen ""))
  = Some (0, S (length inner)).
Proof.
  intros Hflat.
  set (expr := String openParen (inner ++ String closeParen "")).
  assert (Hclose : charAt expr (S (length inner)) = Some closeParen).
  { unfold expr. simpl. rewrite charAt_app_r by lia.
    now rewrite Nat.sub_diag. }
  assert (Honly : forall i c, charAt expr i = Some c -> isBracket c = true ->
                              (i = 0 /\ c = openParen) \/
                              (i = S (length inner) /\ c = closeParen)).
  { intros [|i] c Hi Hc; unfold expr in Hi; simpl in Hi.
    - left. split; congruence.
    - right. destruct (Nat.lt_ge_cases i (length inner)) as [Hlt|Hge].
      + rewrite charAt_app_l in Hi by assumption.
        rewrite (noBrackets_charAt _ _ _ Hflat Hi) in Hc. discriminate.
      + rewrite charAt_app_r in Hi by assumption.
        destruct (i - length inner) as [|j] eqn:E; simpl in Hi;
          [|discriminate].
        split; [lia | congruence]. }
  destruct (__findInnermostBrackets expr) as [[o c]|] eqn:E.
  - destruct (findInnermostBrackets_some _ _ _ E)
      as (Hlt & _ & Ho & Hc & _).
    destruct (Honly _ _ Ho eq_refl) as [[-> _]|[_ Habs]]; [|discriminate].
    destruct (Honly _ _ Hc eq_refl) as [[_ Habs]|[-> _]]; [discriminate|].
    reflexivity.
  - exfalso. apply (findInnermostBrackets_none _ E 0 (S (length inner)));
      [reflexivity | lia | exact Hclose].
Qed.

Lemma evaluateExpression_wrapped (inner : string) :
  noBrackets inner = true ->
  evaluateExpression (String openParen (inner ++ String closeParen "")) =
  (v <- evaluateExpression inner ;; evaluateExpression (toString v)).
Proof.
  intros Hflat. rewrite (evaluateExpression_step _ _ _ (find_wrapped _ Hflat)).
  unfold slice, sliceFrom. simpl.
  rewrite Nat.sub_0_r, take_app_length.
  rewrite <- drop_drop, drop_app_length. simpl drop.
  destruct (evaluateExpression inner); simpl; auto.
  now rewrite append_empty.
Qed.

Lemma finiteToString_noneIn_high (m : positive) (e : Z) :
  noneIn [times; slash] (finiteToString m e) = true.
Proof.
  destruct (finiteToString_shape m e)
    as [Hp | (body & sg & ds & -> & Hb & Hsg & Hds)].
  - now apply plain_noneIn_high.
  - pose proof (plain_noneIn_high _ Hb) as H1.
    pose proof (plain_noneIn_high _ Hds) as H2.
    unfold noneIn in *. rewrite forallb_string_app, H1.
    cbn [forallb_string andb].
    now rewrite (lowOperator_not_high _ Hsg), H2.
Qed.

(** The text of a negative finite number evaluates to NaN. *)
Lemma evaluateExpression_negative_text (m : positive) (e : Z) :
  evaluateExpression (numberToString (S754_finite true m e))
  = Normal (VNum Number.NaN).
Proof.
  rewrite evaluateExpression_resolve.
  rewrite resolveBrackets_none
    by apply findInnermostBrackets_flat, numberToString_noBrackets.
  simpl bind. unfold levels, computeMD.
  change (numberToString (S754_finite true m e))
    with (String minus (finiteToString m e)).
  rewrite solve_echo.
  - simpl bind. apply (computeAS_negative m e).
  - unfold scanInit. rewrite scan_token.
    + simpl numString. now apply lowOperator_invalid.
    + pose proof (finiteToString_noneIn_high m e) as H.
      unfold noneIn in *. cbn [forallb_string]. now rewrite H.
Qed.

(** X5. Brackets are not transparent: the value of a flat expression put
    between brackets is not the value of the expression but the
    evaluation of the text of that value. *)
Theorem brackets_reparse (inner : string) :
  noBrackets inner = true ->
  evaluateExpression ("(" ++ inner ++ ")") =
  (v <- evaluateExpression inner ;; evaluateExpression (toString v)).
Proof. apply evaluateExpression_wrapped. Qed.

Lemma brackets_reparse_witness :
  noBrackets "2-5" = true /\
  evaluateExpression "2-5" = Normal (VNum (parseFloat "-3")) /\
  evaluateExpression "(2-5)" = Normal (VNum Number.NaN).
Proof.
  split; [reflexivity|]. split; [vm_compute; reflexivity|].
  change "(2-5)" with ("(" ++ "2-5" ++ ")").
  rewrite (brackets_reparse "2-5" eq_refl). vm_compute. reflexivity.
Defined.

(** X6. A bracket group whose value is a negative finite number makes
    compute return NaN when the group is the whole expression: the text
    of the value starts with a minus sign, read as a subtraction with an
    empty left operand. *)
Theorem negative_group_gives_NaN (this : Calculator) (log : console)
  (inner : string) (m : positive) (e : Z) :
  noBrackets inner = true ->
  evaluateExpression inner = Normal (VNum (S754_finite true m e)) ->
  compute this log ("(" ++ inner ++ ")") = (VNum Number.NaN, log).
Proof.
  intros Hflat Hval. rewrite compute_evaluate.
  change ("(" ++ inner ++ ")")
    with (String openParen (inner ++ String closeParen "")).
  rewrite (evaluateExpression_wrapped _ Hflat), Hval.
  cbn [bind toString].
  now rewrite (evaluateExpression_negative_text m e).
Qed.

Lemma negative_group_gives_NaN_witness :
  noBrackets "1-3" = true /\
  evaluateExpression "1-3" = Normal (VNum (parseFloat "-2")) /\
  compute new_Calculator [] "(1-3)" = (VNum Number.NaN, []).
Proof.
  split; [reflexivity|]. split; [vm_compute; reflexivity|].
  apply (negative_group_gives_NaN new_Calculator [] "1-3"
           4503599627370496 (-51) eq_refl).
  vm_compute. reflexivity.
Defined.

Lemma replace_count_close (expr t : string) (o c : nat) :
  __findInnermostBrackets expr = Some (o, c) ->
  noBrackets t = true ->
  S (countChar closeParen
       (slice expr 0 o ++ t ++ sliceFrom expr (c + 1)))
  = countChar closeParen expr.
Proof.
  intros H Ht.
  destruct (findInnermostBrackets_some _ _ _ H) as (Hlt & _ & Ho & Hc & _).
  pose proof (f_equal (countChar closeParen)
                (split_at_pair expr o c _ _ Hlt Ho Hc)) as Hs.
  rewrite Hs. rewrite !countChar_app. simpl countChar.
  rewrite ?countChar_app. simpl countChar.
  rewrite (noBrackets_count t closeParen Ht eq_refl).
  rewrite (noBrackets_count _ closeParen (inner_noBrackets _ _ _ H) eq_refl).
  change (Ascii.eqb openParen closeParen) with false.
  change (Ascii.eqb closeParen closeParen) with true. lia.
Qed.

Lemma bracketLoop_pairs :
  forall fuel expr flat,
    bracketLoop fuel expr = Some (Normal flat) ->
    countChar openParen flat <= countChar openParen expr /\
    countChar openParen flat + countChar closeParen expr =
    countChar closeParen flat + countChar openParen expr.
Proof.
  induction fuel as [|fuel IH]; intros expr flat H; [discriminate|].
  simpl in H. destruct (__findInnermostBrackets expr) as [[o c]|] eqn:E.
  - destruct (bracketLoop fuel (slice expr (o + 1) c))
      as [[inner|e]|] eqn:E1; try discriminate.
    destruct (levels inner) as [v|e] eqn:El; [|discriminate].
    pose proof (inner_noBrackets _ _ _ E) as Hin.
    assert (inner = slice expr (o + 1) c) as ->.
    { destruct fuel; [discriminate|].
      rewrite (bracketLoop_flat _ _ Hin) in E1. congruence. }
    pose proof (levels_noBrackets _ _ Hin El) as Hv.
    pose proof (replace_count _ _ _ _ E Hv).
    pose proof (replace_count_close _ _ _ _ E Hv).
    destruct (IH _ _ H). lia.
  - injection H as <-. lia.
Qed.

(** X7. The bracket loop removes brackets in pairs only: in the
    expression it leaves there are no more opening brackets than before,
    and as many opening as closing brackets have gone; no pair is found
    in it any more. *)
Theorem resolveBrackets_pairs (expr flat : string) :
  resolveBrackets expr = Normal flat ->
  countChar openParen flat <= countChar openParen expr /\
  countChar openParen expr - countChar openParen flat =
  countChar closeParen expr - countChar closeParen flat /\
  countChar closeParen flat <= countChar closeParen expr /\
  __findInnermostBrackets flat = None.
Proof.
  intros H.
  assert (Hb : bracketLoop (fuelFor expr) expr = Some (Normal flat)).
  { rewrite <- H. apply bracketLoop_enough. unfold fuelFor; lia. }
  destruct (bracketLoop_pairs _ _ _ Hb).
  destruct (resolveBrackets_flat _ _ H) as [Hnone _].
  repeat split; auto; lia.
Qed.

Lemma resolveBrackets_pairs_witness :
  resolveBrackets "(1)+((2)" = Normal "1+(2" /\
  countChar openParen "1+(2" <= countChar openParen "(1)+((2)" /\
  __findInnermostBrackets "1+(2" = None.
Proof.
  assert (H : resolveBrackets "(1)+((2)" = Normal "1+(2")
    by (vm_compute; reflexivity).
  split; [exact H|].
  destruct (resolveBrackets_pairs _ _ H) as (H1 & _ & _ & H4).
  split; assumption.
Defined.

End Groups.

(* ================================================================= *)
(** ** Further properties: chains of one level *)

Section Chains.

Lemma high_operator_cases (o : ascii) :
  includes [times; slash] o = true -> o = times \/ o = slash.
Proof.
  unfold includes. simpl. rewrite orb_false_r. intros H.
  apply orb_prop in H as [H|H]; apply Ascii.eqb_eq in H; auto.
Qed.

Lemma foldLeftM_MD_throw (rest : list (ascii * string)) :
  Forall (fun ot => includes [times; slash] (fst ot) = true) rest ->
  forall acc,
    foldLeftM (fun a ot => operateMD a (parseFloat (snd ot)) (fst ot))
              rest acc = Throw divisionByZero <->
    Exists (fun ot => fst ot = slash /\
                      Number.is_zero (parseFloat (snd ot)) = true) rest.
Proof.
  induction rest as [|[o t] rest IH]; intros Hall acc; simpl.
  - split; [discriminate | intros H; inversion H].
  - inversion Hall as [|? ? Ho Hrest]; subst. simpl in Ho.
    specialize (IH Hrest). unfold operateMD at 1.
    destruct (high_operator_cases _ Ho) as [-> | ->].
    + change (Ascii.eqb times times) with true. cbv iota. simpl bind.
      rewrite IH. split; [now apply Exists_cons_tl|].
      intros H. inversion H as [? ? [Habs _]|]; subst; auto.
      discriminate.
    + change (Ascii.eqb slash times) with false. cbv iota.
      destruct (Number.is_zero (parseFloat t)) eqn:Ez; simpl bind.
      * split; [intros _; apply Exists_cons_hd; auto | reflexivity].
      * rewrite IH. split; [now apply Exists_cons_tl|].
        intros H. inversion H as [? ? [_ Habs]|]; subst; auto.
        simpl in Habs. congruence.
Qed.

Lemma wellTokenised_operators (ops : list ascii) (t0 : string)
  (rest : list (ascii * string)) :
  wellTokenised ops t0 rest ->
  Forall (fun ot => includes ops (fst ot) = true) rest.
Proof.
  intros [_ H]. induction H as [|x l [Hx _] _ IH]; constructor; auto.
Qed.

(** X8. A chain of multiplications and divisions throws at the
    multiplication/division pass exactly when one of its divisions has a
    right token that parses to zero, wherever it stands in the chain and
    whatever the value accumulated before it. *)
Theorem computeMD_chain_throws (t0 : string) (rest : list (ascii * string)) :
  wellTokenised [times; slash] t0 rest ->
  hasInvalidChar (lastToken t0 rest) = false ->
  (computeMD (VStr (joinTokens t0 rest)) = Throw divisionByZero <->
   Exists (fun ot => fst ot = slash /\
                     Number.is_zero (parseFloat (snd ot)) = true) rest).
Proof.
  intros Hw Hlast. unfold computeMD. rewrite (solve_tokens _ _ _ _ Hw Hlast).
  rewrite <- (foldLeftM_MD_throw rest (wellTokenised_operators _ _ _ Hw)
                (parseFloat t0)).
  destruct (foldLeftM _ rest (parseFloat t0)) as [r|e]; simpl.
  - split; discriminate.
  - split; congruence.
Qed.

Lemma computeMD_chain_throws_witness :
  wellTokenised [times; slash] "8" [(slash, "0"); (times, "3")] /\
  hasInvalidChar (lastToken "8" [(slash, "0"); (times, "3")]) = false /\
  computeMD (VStr "8/0*3") = Throw divisionByZero.
Proof.
  assert (Hw : wellTokenised [times; slash] "8" [(slash, "0"); (times, "3")])
    by (split; [reflexivity | repeat constructor]).
  split; [exact Hw|]. split; [reflexivity|].
  apply (proj2 (computeMD_chain_throws "8" [(slash, "0"); (times, "3")]
                  Hw eq_refl)).
  apply Exists_cons_hd. split; reflexivity.
Defined.

Lemma foldLeftM_AS (rest : list (ascii * string)) :
  forall acc,
    foldLeftM (fun a ot => operateAS a (parseFloat (snd ot)) (fst ot))
              rest acc = Normal (fold_left applyAS rest acc).
Proof.
  induction rest as [|[o t] rest IH]; intros acc; [reflexivity|].
  cbn [foldLeftM fold_left fst snd]. unfold operateAS. cbn [bind].
  rewrite IH. reflexivity.
Qed.

Lemma joinTokens_invalid (t0 : string) (o : ascii) (t : string)
  (rest : list (ascii * string)) :
  isLowOperator o = true ->
  hasInvalidChar (joinTokens t0 ((o, t) :: rest)) = true.
Proof.
  intros Ho. simpl. rewrite hasInvalidChar_app.
  rewrite (lowOperator_invalid _ _ Ho). apply orb_true_r.
Qed.

(** X9. On an expression without bracket pair and without [*] or [/]
    that holds at least one [+] or [-] and ends on digits and points,
    compute returns the sum taken from left to right: each [+] adds and
    each [-] subtracts what parseFloat reads in the token after it,
    starting from what it reads in the first token. *)
Theorem compute_sum_chain (this : Calculator) (log : console)
  (t0 : string) (rest : list (ascii * string)) :
  rest <> [] ->
  wellTokenised [plus; minus] t0 rest ->
  noneIn [times; slash] (joinTokens t0 rest) = true ->
  __findInnermostBrackets (joinTokens t0 rest) = None ->
  hasInvalidChar (lastToken t0 rest) = false ->
  compute this log (joinTokens t0 rest) =
  (VNum (fold_left applyAS rest (parseFloat t0)), log).
Proof.
  intros Hne Hw Hhigh Hnone Hlast.
  rewrite compute_evaluate, evaluateExpression_resolve.
  rewrite (resolveBrackets_none _ Hnone). simpl bind.
  unfold levels, computeMD. rewrite solve_echo.
  - simpl bind. unfold computeAS.
    rewrite (solve_tokens _ _ _ _ Hw Hlast), foldLeftM_AS. reflexivity.
  - unfold scanInit. rewrite (scan_token _ _ Hhigh). simpl numString.
    destruct rest as [|[o t] rest]; [contradiction|].
    apply joinTokens_invalid.
    pose proof (wellTokenised_operators _ _ _ Hw) as Hops.
    inversion Hops; subst. assumption.
Qed.

Lemma compute_sum_chain_witness :
  wellTokenised [plus; minus] "10" [(minus, "2"); (plus, "0.5")] /\
  compute new_Calculator [] "10-2+0.5" = (VNum (parseFloat "8.5"), []).
Proof.
  assert (Hw : wellTokenised [plus; minus] "10" [(minus, "2"); (plus, "0.5")])
    by (split; [reflexivity | repeat constructor]).
  split; [exact Hw|].
  change "10-2+0.5" with (joinTokens "10" [(minus, "2"); (plus, "0.5")]).
  rewrite (compute_sum_chain new_Calculator [] "10"
             [(minus, "2"); (plus, "0.5")]
             ltac:(discriminate) Hw eq_refl eq_refl eq_refl).
  vm_compute. reflexivity.
Defined.

End Chains.

(* ================================================================= *)
(** ** Further properties: expressions that mix the levels *)

Section MixedLevels.

Lemma scanDigits_stop (t : string) :
  allDigits t = true ->
  forall acc n, exists v k,
    (t <> "" -> k <> O) /\
    forall c rest,
      isDigit c = false ->
      scanDigits (t ++ String c rest) acc n = (v, k, String c rest) /\
      scanDigits t acc n = (v, k, "").
Proof.
  unfold allDigits. induction t as [|d t IH]; simpl; intros H acc n.
  - exists acc, n. split; [congruence|]. intros c rest Hc. now rewrite Hc.
  - apply andb_prop in H as [Hd Ht]. rewrite Hd.
    destruct (IH Ht (10 * acc + digitValue d)%Z (S n)) as (v & k & Hk & Hs).
    exists v, k. split; [|exact Hs].
    intros _. destruct t as [|d' t'].
    + destruct (Hs "*"%char "" eq_refl) as [_ Hs']. simpl in Hs'.
      injection Hs' as _ <-. discriminate.
    + apply Hk. discriminate.
Qed.

Lemma digit_head (d : ascii) (x : string) :
  isDigit d = true ->
  parseFloat (String d x) = parseUnsigned false (String d x) /\
  prefix "Infinity" (String d x) = false.
Proof.
  destruct d as [[] [] [] [] [] [] [] []]; intros H;
    try (vm_compute in H; discriminate H); split; reflexivity.
Qed.

(** parseFloat reads the digits before an operator and nothing after. *)
Lemma parseFloat_before_operator (t rest : string) (c : ascii) :
  allDigits t = true -> t <> "" -> isOperator c = true ->
  parseFloat (t ++ String c rest) = parseFloat t.
Proof.
  intros Ht Hne Hc.
  destruct (scanDigits_stop t Ht 0%Z O) as (v & k & Hk & Hs).
  specialize (Hk Hne).
  destruct t as [|d t']; [congruence|].
  assert (Hd : isDigit d = true)
    by (unfold allDigits in Ht; simpl in Ht; now apply andb_prop in Ht).
  change (String d t' ++ String c rest)
    with (String d (t' ++ String c rest)) in *.
  destruct (digit_head d (t' ++ String c rest) Hd) as [-> Hp1].
  destruct (digit_head d t' Hd) as [-> Hp2].
  unfold parseUnsigned. rewrite Hp1, Hp2.
  assert (Hnd : isDigit c = false).
  { unfold isOperator, includes in Hc. simpl in Hc.
    repeat (apply orb_prop in Hc as [Hc|Hc];
            [apply Ascii.eqb_eq in Hc; subst; reflexivity|]).
    discriminate. }
  destruct (Hs c rest Hnd) as [Hs1 Hs2].
  change (String d t' ++ String c rest)
    with (String d (t' ++ String c rest)) in Hs1.
  rewrite Hs1, Hs2.
  destruct k; [congruence|].
  unfold isOperator, includes in Hc. simpl in Hc.
  repeat (apply orb_prop in Hc as [Hc|Hc];
          [apply Ascii.eqb_eq in Hc; subst; reflexivity|]).
  discriminate.
Qed.

Lemma plain_noBrackets (s : string) :
  hasInvalidChar s = false -> noBrackets s = true.
Proof.
  rewrite plain_valid. apply forallb_string_impl.
  intros c H. destruct c as [[] [] [] [] [] [] [] []];
    vm_compute in H; try discriminate H; reflexivity.
Qed.

Lemma operator_noBrackets (c : ascii) :
  isOperator c = true -> isBracket c = false.
Proof.
  unfold isOperator, includes. simpl. intros Hc.
  repeat (apply orb_prop in Hc as [Hc|Hc];
          [apply Ascii.eqb_eq in Hc; subst; reflexivity|]).
  discriminate.
Qed.

Lemma high_isOperator (c : ascii) :
  includes [times; slash] c = true -> isOperator c = true.
Proof.
  intros H. destruct (high_operator_cases _ H) as [-> | ->]; reflexivity.
Qed.

Lemma low_isOperator (c : ascii) :
  isLowOperator c = true -> isOperator c = true.
Proof.
  unfold isLowOperator, includes. simpl. rewrite orb_false_r. intros H.
  apply orb_prop in H as [H|H]; apply Ascii.eqb_eq in H; subst; reflexivity.
Qed.

Lemma three_terms_flat (a b c : string) (o1 o2 : ascii) :
  hasInvalidChar a = false -> hasInvalidChar b = false ->
  hasInvalidChar c = false ->
  isOperator o1 = true -> isOperator o2 = true ->
  noBrackets (a ++ String o1 (b ++ String o2 c)) = true.
Proof.
  intros Ha Hb Hc H1 H2.
  pose proof (plain_noBrackets _ Ha) as Ha'.
  pose proof (plain_noBrackets _ Hb) as Hb'.
  pose proof (plain_noBrackets _ Hc) as Hc'.
  unfold noBrackets in *. rewrite forallb_string_app, Ha'.
  cbn [forallb_string andb]. rewrite forallb_string_app, Hb'.
  cbn [forallb_string andb].
  now rewrite (operator_noBrackets _ H1), (operator_noBrackets _ H2), Hc'.
Qed.

(** X10. In [a*b+c] (or with [/] for [*], [-] for [+]) the factor is
    lost: the multiplication/division pass echoes the text, since what
    follows its operator is not a number, and the addition/subtraction
    pass reads only the digits [a] in the token [a*b]; compute returns
    [a + c] (or [a - c]). *)
Theorem compute_product_then_sum (this : Calculator) (log : console)
  (a b c : string) (o1 o2 : ascii) :
  allDigits a = true -> a <> "" ->
  hasInvalidChar b = false -> hasInvalidChar c = false ->
  includes [times; slash] o1 = true -> isLowOperator o2 = true ->
  compute this log (a ++ String o1 (b ++ String o2 c)) =
  (VNum (applyAS (parseFloat a) (o2, c)), log).
Proof.
  intros Ha Hne Hb Hc H1 H2.
  pose proof (digits_valid _ Ha) as Ha'.
  rewrite compute_evaluate, evaluateExpression_resolve.
  rewrite resolveBrackets_none
    by (apply findInnermostBrackets_flat, three_terms_flat;
        auto using high_isOperator, low_isOperator).
  cbn [bind]. unfold levels, computeMD.
  set (expr := a ++ String o1 (b ++ String o2 c)).
  assert (Hmd : solve (VStr expr) [times; slash] operateMD
                = Normal (VStr expr)).
  { apply solve_echo. unfold scanInit.
    change expr with (joinTokens a [(o1, b ++ String o2 c)]).
    rewrite scan_tokens.
    - simpl. rewrite hasInvalidChar_app, (lowOperator_invalid _ _ H2).
      apply orb_true_r.
    - split; [now apply plain_noneIn_high|].
      repeat constructor; [exact H1|]. simpl.
      pose proof (plain_noneIn_high _ Hb) as Hnb.
      pose proof (plain_noneIn_high _ Hc) as Hnc.
      unfold noneIn in *. rewrite forallb_string_app, Hnb.
      cbn [forallb_string andb].
      now rewrite (lowOperator_not_high _ H2), Hnc. }
  rewrite Hmd. cbn [bind]. unfold computeAS.
  assert (Hexpr : expr = joinTokens (a ++ String o1 b) [(o2, c)])
    by (unfold expr; simpl; now rewrite append_assoc).
  rewrite Hexpr. rewrite solve_tokens; [| |exact Hc].
  - cbn [foldLeftM fst snd]. unfold operateAS, applyAS. cbn [bind fst snd].
    now rewrite (parseFloat_before_operator a b o1 Ha Hne
                   (high_isOperator _ H1)).
  - split; [|repeat constructor; [exact H2 | now apply plain_noneIn_low]].
    pose proof (plain_noneIn_low _ Ha') as Hna.
    pose proof (plain_noneIn_low _ Hb) as Hnb.
    unfold noneIn in *. rewrite forallb_string_app, Hna.
    cbn [forallb_string andb]. rewrite Hnb.
    destruct (high_operator_cases _ H1) as [-> | ->]; reflexivity.
Qed.

Lemma compute_product_then_sum_witness :
  allDigits "3" = true /\ hasInvalidChar "4" = false /\
  compute new_Calculator [] "3*4+5" = (VNum (Number.of_Z 8), []).
Proof.
  split; [reflexivity|]. split; [reflexivity|].
  change "3*4+5" with ("3" ++ String times ("4" ++ String plus "5")).
  rewrite (compute_product_then_sum new_Calculator [] "3" "4" "5" times plus
             eq_refl ltac:(discriminate) eq_refl eq_refl eq_refl eq_refl).
  vm_compute. reflexivity.
Defined.

(** X11. In [a+b*c] (or with [-] for [+], [/] for [*]) the middle term
    is lost: the multiplication/division pass reads only the digits [a]
    in the token [a+b], so the expression evaluates as [a*c] (or [a/c],
    throwing when [c] parses to zero), the result then being read back
    from its text by the addition/subtraction pass. *)
Theorem evaluate_sum_then_product (a b c : string) (o1 o2 : ascii) :
  allDigits a = true -> a <> "" ->
  hasInvalidChar b = false -> hasInvalidChar c = false ->
  isLowOperator o1 = true -> includes [times; slash] o2 = true ->
  evaluateExpression (a ++ String o1 (b ++ String o2 c)) =
  (r <- operateMD (parseFloat a) (parseFloat c) o2 ;; computeAS (VNum r)).
Proof.
  intros Ha Hne Hb Hc H1 H2.
  pose proof (digits_valid _ Ha) as Ha'.
  rewrite evaluateExpression_resolve.
  rewrite resolveBrackets_none
    by (apply findInnermostBrackets_flat, three_terms_flat;
        auto using high_isOperator, low_isOperator).
  cbn [bind]. unfold levels, computeMD.
  replace (a ++ String o1 (b ++ String o2 c))
    with (joinTokens (a ++ String o1 b) [(o2, c)])
    by (simpl; now rewrite append_assoc).
  rewrite solve_tokens; [| |exact Hc].
  - cbn [foldLeftM fst snd].
    rewrite (parseFloat_before_operator a b o1 Ha Hne (low_isOperator _ H1)).
    now destruct (operateMD (parseFloat a) (parseFloat c) o2).
  - split; [|repeat constructor; [exact H2 | now apply plain_noneIn_high]].
    pose proof (plain_noneIn_high _ Ha') as Hna.
    pose proof (plain_noneIn_high _ Hb) as Hnb.
    unfold noneIn in *. rewrite forallb_string_app, Hna.
    cbn [forallb_string andb].
    now rewrite (lowOperator_not_high _ H1), Hnb.
Qed.

Lemma evaluate_sum_then_product_witness :
  allDigits "2" = true /\ hasInvalidChar "3" = false /\
  evaluateExpression "2+3*5" = Normal (VNum (Number.of_Z 10)).
Proof.
  split; [reflexivity|]. split; [reflexivity|].
  change "2+3*5" with ("2" ++ String plus ("3" ++ String times "5")).
  rewrite (evaluate_sum_then_product "2" "3" "5" plus times
             eq_refl ltac:(discriminate) eq_refl eq_refl eq_refl eq_refl).
  vm_compute. reflexivity.
Defined.

End MixedLevels.

(* ================================================================= *)
(** ** Further properties: the buttons *)

Section Buttons.

Variable calculator : Calculator.

Lemma compute_value (this1 this2 : Calculator) (log1 log2 : console)
  (expr : string) :
  fst (compute this1 log1 expr) = fst (compute this2 log2 expr).
Proof.
  rewrite !compute_evaluate. now destruct (evaluateExpression expr).
Qed.

Lemma click_character (c : string) (st : page) :
  isCharacterButton c = true ->
  click calculator (Some c) st =
  mkPage (problem st ++ c) (problem st ++ c) (pageLog st).
Proof.
  unfold isCharacterButton, click. intros H.
  apply andb_prop in H as [H1 H2].
  apply negb_true_iff in H1, H2. now rewrite H1, H2.
Qed.

Lemma click_equals (st : page) :
  click calculator (Some "=") st =
  mkPage (problem st)
         (toString (fst (compute calculator (pageLog st) (problem st))))
         (snd (compute calculator (pageLog st) (problem st))).
Proof.
  unfold click, calculateExpression. simpl.
  now destruct (compute calculator (pageLog st) (problem st)).
Qed.

Lemma clicks_typed (cs : list string) :
  forallb isCharacterButton cs = true ->
  forall st,
    problem (clicks calculator (typed cs) st) = problem st ++ concat "" cs /\
    pageLog (clicks calculator (typed cs) st) = pageLog st /\
    (cs <> [] ->
     screenText (clicks calculator (typed cs) st)
     = problem st ++ concat "" cs).
Proof.
  unfold clicks, typed.
  induction cs as [|c cs IH]; intros H st; cbn [map fold_left].
  - simpl concat. rewrite append_empty. repeat split; auto. congruence.
  - simpl in H. apply andb_prop in H as [Hc Hcs].
    rewrite (click_character _ _ Hc).
    destruct (IH Hcs (mkPage (problem st ++ c) (problem st ++ c) (pageLog st)))
      as (Hp & Hl & Hs). simpl in Hp, Hl, Hs.
    assert (Hcat : (problem st ++ c) ++ concat "" cs
                   = problem st ++ concat "" (c :: cs)).
    { rewrite append_assoc. f_equal. simpl.
      destruct cs; simpl; [now rewrite append_empty | reflexivity]. }
    rewrite <- Hcat. repeat split; auto.
    intros _. destruct cs as [|c' cs']; [|apply Hs; discriminate].
    simpl. now rewrite append_empty.
Qed.

(** X12. Character buttons only append: after a run of them the
    expression is the old one followed by their characters in order,
    the screen shows exactly that expression, and nothing is evaluated
    or logged. *)
Theorem typing_appends (cs : list string) (st : page) :
  forallb isCharacterButton cs = true ->
  problem (clicks calculator (typed cs) st) = problem st ++ concat "" cs /\
  pageLog (clicks calculator (typed cs) st) = pageLog st /\
  (cs <> [] ->
   screenText (clicks calculator (typed cs) st) = problem st ++ concat "" cs).
Proof. intros H. now apply clicks_typed. Qed.

(** X13. The [=] button shows the result and keeps the expression: the
    screen becomes the text of what compute returns for the expression,
    pressing [=] again shows the same text, and the next character
    button continues the old expression, not the result. *)
Theorem equals_keeps_problem (st : page) :
  let st1 := click calculator (Some "=") st in
  problem st1 = problem st /\
  screenText st1 = toString (fst (compute calculator [] (problem st))) /\
  screenText (click calculator (Some "=") st1) = screenText st1 /\
  (forall c, isCharacterButton c = true ->
             screenText (click calculator (Some c) st1) = problem st ++ c /\
             problem (click calculator (Some c) st1) = problem st ++ c).
Proof.
  cbv zeta. rewrite (click_equals st).
  set (st1 := mkPage (problem st) _ _).
  split; [reflexivity|].
  split; [unfold st1; cbn [screenText]; f_equal; apply compute_value|].
  split.
  - rewrite (click_equals st1). unfold st1. cbn [screenText problem].
    f_equal. apply compute_value.
  - intros c H. rewrite (click_character _ _ H). split; reflexivity.
Qed.

Lemma clicks_app (l1 l2 : list (option string)) (st : page) :
  clicks calculator (l1 ++ l2) st
  = clicks calculator l2 (clicks calculator l1 st).
Proof. unfold clicks. apply fold_left_app. Qed.

(** X14. After [Cancel] the past is forgotten: whatever was typed or
    shown before, [Cancel], a run of character buttons and [=] leave the
    typed characters as the expression and show the text of what compute
    returns for them; the console grows by at most the one error line. *)
Theorem cancel_resets (cs : list string) (st : page) :
  forallb isCharacterButton cs = true ->
  let final :=
    clicks calculator (Some "Cancel" :: typed cs ++ [Some "="])%list st in
  problem final = concat "" cs /\
  screenText final
  = toString (fst (compute calculator [] (concat "" cs))) /\
  (pageLog final = pageLog st \/
   pageLog final = (pageLog st ++ [errorLine])%list).
Proof.
  intros H. cbv zeta.
  change (clicks calculator (Some "Cancel" :: typed cs ++ [Some "="])%list st)
    with (clicks calculator (typed cs ++ [Some "="])%list
            (mkPage "" "" (pageLog st))).
  rewrite clicks_app.
  destruct (clicks_typed cs H (mkPage "" "" (pageLog st))) as (Hp & Hl & _).
  simpl in Hp, Hl.
  change (clicks calculator [Some "="] ?s) with (click calculator (Some "=") s).
  rewrite click_equals. simpl. rewrite Hp, Hl.
  split; [reflexivity|]. split; [f_equal; apply compute_value|].
  rewrite compute_evaluate.
  destruct (evaluateExpression (concat "" cs)) as [v|e] eqn:E; simpl; auto.
  right. now rewrite (evaluateExpression_throw _ _ E).
Qed.

End Buttons.

Lemma typing_appends_witness :
  forallb isCharacterButton ["2"; "+"; "3"] = true /\
  clicks new_Calculator (typed ["2"; "+"; "3"]) (mkPage "1" "" [])
  = mkPage "12+3" "12+3" [].
Proof.
  split; [reflexivity|].
  destruct (typing_appends new_Calculator ["2"; "+"; "3"] (mkPage "1" "" [])
              eq_refl) as (Hp & Hl & Hs).
  specialize (Hs ltac:(discriminate)).
  destruct (clicks new_Calculator (typed ["2"; "+"; "3"]) (mkPage "1" "" []))
    as [p s l].
  simpl in Hp, Hl, Hs. now subst.
Defined.

Lemma equals_keeps_problem_witness :
  isCharacterButton "5" = true /\
  screenText (click new_Calculator (Some "5")
                (click new_Calculator (Some "=") (mkPage "2+2" "" [])))
  = "2+25".
Proof.
  split; [reflexivity|].
  destruct (equals_keeps_problem new_Calculator (mkPage "2+2" "" []))
    as (_ & _ & _ & H).
  exact (proj1 (H "5" eq_refl)).
Defined.

Lemma cancel_resets_witness :
  forallb isCharacterButton ["5"; "/"; "0"] = true /\
  screenText (clicks new_Calculator
                (Some "Cancel" :: typed ["5"; "/"; "0"] ++ [Some "="])%list
                (mkPage "9*9" "81" []))
  = errorText.
Proof.
  split; [reflexivity|].
  destruct (cancel_resets new_Calculator ["5"; "/"; "0"]
              (mkPage "9*9" "81" []) eq_refl) as (_ & Hs & _).
  rewrite Hs. vm_compute. reflexivity.
Defined.

(* ================================================================= *)
(** ** Further properties: the self-test *)

Lemma forEachTest_app (before : list (string * number)) :
  forall (rest : list (string * number)) (i : nat) (out : list consoleEntry),
    Forall (fun t => exists v, evaluateExpression (fst t) = Normal v) before ->
    snd (forEachTest before i out) = Normal tt /\
    List.length (fst (forEachTest before i out))
    = List.length out + List.length before /\
    forEachTest (before ++ rest)%list i out
    = forEachTest rest (i + List.length before)
        (fst (forEachTest before i out)).
Proof.
  induction before as [|[x n] before IH]; intros rest i out Hall.
  - simpl. rewrite !Nat.add_0_r. auto.
  - inversion Hall as [|? ? [v Hv] Hrest]; subst. simpl in Hv.
    cbn [forEachTest app]. rewrite Hv.
    match goal with
    | |- context [forEachTest before (S i) ?o] =>
        destruct (IH rest (S i) o Hrest) as (H1 & H2 & H3)
    end.
    rewrite H1, H2, H3. rewrite length_app. cbn [List.length].
    repeat split; [lia|]. f_equal. lia.
Qed.

(** X15. The self-test does not catch what evaluateExpression throws:
    the first test whose expression throws (which can only be the
    division by zero) ends the run with that throw.  The console then
    holds one line for each test before it, exactly as if the run had
    stopped there, and nothing for the throwing test or for the tests
    after it, which are not run. *)
Theorem self_test_aborts_on_throw (before after : list (string * number))
  (expr : string) (expected : number) (i : nat) (out : list consoleEntry)
  (e : exn) :
  Forall (fun t => exists v, evaluateExpression (fst t) = Normal v) before ->
  evaluateExpression expr = Throw e ->
  forEachTest (before ++ (expr, expected) :: after)%list i out
  = (fst (forEachTest before i out), Throw e) /\
  List.length (fst (forEachTest before i out))
  = List.length out + List.length before /\
  e = divisionByZero.
Proof.
  intros Hall Hthrow.
  destruct (forEachTest_app before ((expr, expected) :: after) i out Hall)
    as (_ & Hlen & Happ).
  rewrite Happ. cbn [forEachTest]. rewrite Hthrow.
  repeat split; auto. now apply evaluateExpression_throw in Hthrow.
Qed.

Lemma self_test_aborts_on_throw_witness :
  evaluateExpression "5/0" = Throw divisionByZero /\
  forEachTest [("2+2", Number.of_Z 4); ("5/0", Number.NaN);
               ("2-1", Number.of_Z 1)] 0 []
  = ([LogEntry "Test 0 passed"], Throw divisionByZero).
Proof.
  assert (H : evaluateExpression "5/0" = Throw divisionByZero)
    by (vm_compute; reflexivity).
  split; [exact H|].
  destruct (self_test_aborts_on_throw [("2+2", Number.of_Z 4)]
              [("2-1", Number.of_Z 1)] "5/0" Number.NaN 0 [] divisionByZero)
    as (Hrun & _ & _).
  - repeat constructor. eexists. vm_compute. reflexivity.
  - exact H.
  - cbn [app] in Hrun. rewrite Hrun. vm_compute. reflexivity.
Defined.

(** X16. The self-test of the repository passes: run on its nine
    expressions it reports each of them as passed, in order, reports no
    failure and does not throw. *)
Theorem self_test_passes :
  testEvaluateExpression =
  ([LogEntry "Test 0 passed"; LogEntry "Test 1 passed";
    LogEntry "Test 2 passed"; LogEntry "Test 3 passed";
    LogEntry "Test 4 passed"; LogEntry "Test 5 passed";
    LogEntry "Test 6 passed"; LogEntry "Test 7 passed";
    LogEntry "Test 8 passed"], Normal tt).
Proof. vm_compute. reflexivity. Qed.

(* ================================================================= *)
(** ** Further properties: texts without a number *)

(** X17. A text made of digits and points in which parseFloat reads no
    number (the empty text, a lone point) is not echoed and does not
    give the number NaN: the multiplication/division pass returns NaN,
    and the addition/subtraction pass returns its text, so compute
    returns the string 'NaN'. *)
Theorem compute_no_number (this : Calculator) (log : console) (s : string) :
  hasInvalidChar s = false ->
  parseFloat s = Number.NaN ->
  compute this log s = (VStr "NaN", log).
Proof.
  intros Hp Hnan.
  rewrite compute_evaluate, evaluateExpression_resolve.
  rewrite resolveBrackets_none
    by apply findInnermostBrackets_flat, plain_noBrackets, Hp.
  cbn [bind]. unfold levels, computeMD.
  change s with (joinTokens s []) at 1.
  rewrite solve_tokens; [| |exact Hp].
  - cbn [foldLeftM bind]. rewrite Hnan. reflexivity.
  - split; [now apply plain_noneIn_high | constructor].
Qed.

Lemma compute_no_number_witness :
  hasInvalidChar "" = false /\ parseFloat "" = Number.NaN /\
  compute new_Calculator [] "" = (VStr "NaN", []) /\
  compute new_Calculator [] "." = (VStr "NaN", []).
Proof.
  split; [reflexivity|]. split; [reflexivity|]. split.
  - exact (compute_no_number new_Calculator [] "" eq_refl eq_refl).
  - exact (compute_no_number new_Calculator [] "." eq_refl eq_refl).
Defined.

(* ================================================================= *)
(** ** Expressions that begin or end with an operator *)

Section DanglingOperators.













End DanglingOperators.



